(** * The server console of argon-ui: ANSI formatter and console session

    A shallow embedding of
    - [src/components/AnsiParser.tsx] (function [parseAnsi]) and its themed
      variant, and
    - the console session of [src/pages/[server]/Console.tsx]
      ([initWebSocket], [ws.onmessage], [ws.onclose], [sendCommand],
      [handlePowerAction], [checkWebSocketStatus], [getStateColor], the
      effect cleanup and the power buttons), and
    - what the file manager of the same file computes without the network
      (file types and context menu, listing, path, selection, drop zone),
    with the properties the specification states about them, and further
    properties that the code has. *)

From Stdlib Require Import String Ascii NArith ZArith QArith Lia DecimalString.
From stdpp Require Import base decidable option list gmap sorting.
From Equations Require Import Equations.

Local Open Scope nat_scope.

(** ** JavaScript values the code works on *)
Module JS.

(** A JavaScript string is a sequence of UTF-16 code units. *)
Abbreviation char := N (only parsing).
Abbreviation jsstring := (list N) (only parsing).

(** [js "abc"] is the string literal ['abc'] (one code unit per character of
    the Latin-1 literal). *)
Definition js (s : string) : jsstring :=
  map N_of_ascii (list_ascii_of_string s).

Definition ESC : char := 27%N.          (* '\u001b' *)
Definition LBRACKET : char := 91%N.     (* '[' *)
Definition LOWER_M : char := 109%N.     (* 'm' *)
Definition SEMICOLON : char := 59%N.    (* ';' *)

(** A JavaScript number: a binary64 value given by its exact rational value,
    or one of the three non-finite values. [-0] and [+0] are both [Fin 0];
    the code never tells them apart ([-0 === 0] holds). *)
Inductive jsnum :=
| NaN
| Infinity (negative : bool)
| Fin (q : Q).

Definition num (k : Z) : jsnum := Fin (inject_Z k).

(** [a === k] for a number [a] and an integer literal [k]. *)
Definition num_eq (a : jsnum) (k : Z) : bool :=
  match a with
  | Fin q => Qeq_bool q (inject_Z k)
  | _ => false
  end.

(** [a >= k] and [a <= k]; every comparison with [NaN] is false. *)
Definition num_ge (a : jsnum) (k : Z) : bool :=
  match a with
  | Fin q => Qle_bool (inject_Z k) q
  | Infinity negative => negb negative
  | NaN => false
  end.

Definition num_le (a : jsnum) (k : Z) : bool :=
  match a with
  | Fin q => Qle_bool q (inject_Z k)
  | Infinity negative => negative
  | NaN => false
  end.

(** [a - k]. The code subtracts only where [k <= a <= 2k], and there the
    binary64 difference is exact. *)
Definition num_sub (a : jsnum) (k : Z) : jsnum :=
  match a with
  | Fin q => Fin (q - inject_Z k)
  | other => other
  end.

(** The integer a number is, when it is one: [ToString] of a number is a
    plain run of digits exactly then, which is what a property key or a
    template literal gets. *)
Definition as_integer (a : jsnum) : option Z :=
  match a with
  | Fin q => let r := Qred q in
             if decide (Qden r = 1%positive) then Some (Qnum r) else None
  | _ => None
  end.

(** [s.split(sep)] for a one-character separator: never the empty array,
    [''.split(';')] is [['']]. *)
Fixpoint split (sep : char) (s : jsstring) : list jsstring :=
  match s with
  | [] => [[]]
  | c :: rest =>
      if decide (c = sep) then [] :: split sep rest
      else match split sep rest with
           | piece :: pieces => (c :: piece) :: pieces
           | [] => [[c]]
           end
  end.

(** [s += x] where [x] was read by index: an index past the end reads
    [undefined], which [+=] would spell out. *)
Definition append_indexed (s : jsstring) (x : option char) : jsstring :=
  match x with
  | Some c => s ++ [c]
  | None => s ++ js "undefined"
  end.

(** White space and line terminators of ECMAScript: what [trim] removes
    and [Number] skips. *)
Definition isWhiteSpace (c : char) : bool :=
  bool_decide (c ∈ [9; 10; 11; 12; 13; 32; 160; 5760; 8232; 8233; 8239;
                    8287; 12288; 65279]%N)
  || ((8192 <=? c) && (c <=? 8202))%N.

Fixpoint trimStart (s : jsstring) : jsstring :=
  match s with
  | c :: rest => if isWhiteSpace c then trimStart rest else s
  | [] => []
  end.

(** [s.trim()] *)
Definition trim (s : jsstring) : jsstring :=
  reverse (trimStart (reverse (trimStart s))).

(** *** A model of the built-in [Number] on strings

    The parser takes [Number] as it finds it, and what is proved of it
    holds for every function [Number]. This one, the [StringToNumber] of
    ECMAScript (white space trimmed, the empty string is 0, signed decimal
    literals with fraction and exponent, [Infinity], and unsigned [0x],
    [0o], [0b] literals, rounded to binary64), serves to run the parser on
    concrete lines. *)

(** The value of a digit in the given base, when the character is one. *)
Definition digit (base : N) (c : char) : option N :=
  let v := (if (48 <=? c) && (c <=? 57) then Some (c - 48)
            else if (97 <=? c) && (c <=? 102) then Some (c - 87)
            else if (65 <=? c) && (c <=? 70) then Some (c - 55)
            else None)%N in
  d ← v; if (d <? base)%N then Some d else None.

(** The longest prefix of digits, as (number of digits, value, rest). *)
Fixpoint digits (base : N) (s : jsstring) (count : nat) (value : N)
  : nat * N * jsstring :=
  match s with
  | c :: rest =>
      match digit base c with
      | Some d => digits base rest (S count) (value * base + d)%N
      | None => (count, value, s)
      end
  | [] => (count, value, [])
  end.

(** Round a rational to the nearest binary64 value, ties to even. *)
Definition round_binary64 (q : Q) : jsnum :=
  let n := Z.abs (Qnum q) in
  let d := Z.pos (Qden q) in
  if (n =? 0)%Z then Fin 0
  else
    let e0 := (Z.log2 n - Z.log2 d)%Z in
    let below := (if 0 <=? e0 then n <? d * 2 ^ e0
                  else n * 2 ^ (- e0) <? d)%Z in
    let e := (if below then e0 - 1 else e0)%Z in
    let u := Z.max (e - 52) (-1074) in
    let '(a, b) := (if 0 <=? u then (n, d * 2 ^ u)
                    else (n * 2 ^ (- u), d))%Z in
    let m := (a / b)%Z in
    let r := (2 * (a mod b))%Z in
    let m := (if (b <? r) || ((r =? b) && Z.odd m) then m + 1 else m)%Z in
    if (0 <=? u)%Z && (2 ^ 1024 <=? m * 2 ^ u)%Z
    then Infinity (Qnum q <? 0)%Z
    else
      let mag := (if 0 <=? u then inject_Z (m * 2 ^ u)
                  else Qred (Qmake m (Z.to_pos (2 ^ (- u)))))%Z in
      Fin (if (Qnum q <? 0)%Z then Qopp mag else mag).

(** An optional sign: whether it is [-], and the rest. *)
Definition sign (s : jsstring) : bool * jsstring :=
  match s with
  | 43%N :: rest => (false, rest)
  | 45%N :: rest => (true, rest)
  | _ => (false, s)
  end.

(** [StrDecimalLiteral] without its sign and other than [Infinity]. *)
Definition unsignedDecimal (s : jsstring) : option Q :=
  let '(ni, vi, s1) := digits 10 s 0 0 in
  let '(nf, vif, s2) :=
    match s1 with
    | 46%N :: frac => digits 10 frac 0 vi
    | _ => (0, vi, s1)
    end in
  if decide (ni + nf = 0) then None
  else
    let mantissa := Z.of_N vif in
    let scaled (ex : Z) :=
      let ex := (ex - Z.of_nat nf)%Z in
      if (0 <=? ex)%Z then inject_Z (mantissa * 10 ^ ex)
      else Qmake mantissa (Z.to_pos (10 ^ (- ex))) in
    match s2 with
    | [] => Some (scaled 0%Z)
    | c :: expo =>
        if decide (c = 101%N ∨ c = 69%N) then
          let '(neg, s3) := sign expo in
          match digits 10 s3 0 0 with
          | (S _, ve, []) =>
              Some (scaled (if neg then - Z.of_N ve else Z.of_N ve)%Z)
          | _ => None
          end
        else None
    end.

Definition nonDecimal (base : N) (s : jsstring) : jsnum :=
  match digits base s 0 0 with
  | (S _, v, []) => round_binary64 (inject_Z (Z.of_N v))
  | _ => NaN
  end.

Definition StringToNumber (s : jsstring) : jsnum :=
  let s := trim s in
  match s with
  | [] => Fin 0
  | 48%N :: (120%N | 88%N) :: rest => nonDecimal 16 rest
  | 48%N :: (111%N | 79%N) :: rest => nonDecimal 8 rest
  | 48%N :: (98%N | 66%N) :: rest => nonDecimal 2 rest
  | _ =>
      let '(neg, body) := sign s in
      if decide (body = js "Infinity") then Infinity neg
      else match unsignedDecimal body with
           | Some q => round_binary64 (if neg then Qopp q else q)
           | None => NaN
           end
  end.

End JS.
Import JS.

(** ** [src/components/AnsiParser.tsx] *)
Module AnsiParser.

(** [SpanStyle]: each of [fontWeight], [fontStyle] and [textDecoration] has
    one possible value (['bold'], ['italic'], ['underline']), so a flag says
    whether it is set. A colour is [None] when the property is absent or
    holds [undefined]; reading it gives [undefined] in both cases. *)
Record SpanStyle := {
  fontWeight : bool;
  fontStyle : bool;
  textDecoration : bool;
  color : option jsstring;
  backgroundColor : option jsstring
}.

Record Span := { text : jsstring; style : SpanStyle }.

(** The style [{}]. *)
Definition emptyStyle : SpanStyle :=
  {| fontWeight := false; fontStyle := false; textDecoration := false;
     color := None; backgroundColor := None |}.

Definition ANSI_COLORS : gmap Z jsstring :=
  list_to_map
    [ (0, js "#000000"); (1, js "#d16969"); (2, js "#b5cea8");
      (3, js "#d7ba7d"); (4, js "#569cd6"); (5, js "#c586c0");
      (6, js "#9cdcfe"); (7, js "#d4d4d4");
      (8, js "#808080"); (9, js "#d16969"); (10, js "#b5cea8");
      (11, js "#d7ba7d"); (12, js "#569cd6"); (13, js "#c586c0");
      (14, js "#9cdcfe"); (15, js "#ffffff") ]%Z.

(** [ANSI_COLORS[n]]: the key is [ToString n], which names a slot only
    when [n] is an integer. *)
Definition ANSI_COLORS_at (n : jsnum) : option jsstring :=
  k ← as_integer n; ANSI_COLORS !! k.

(** The body of the [for] loop over [codes]: one code applied to
    [currentSpan.style]. *)
Definition applyCode (st : SpanStyle) (code : jsnum) : SpanStyle :=
  if num_eq code 0 then emptyStyle
  else if num_eq code 1 then
    {| fontWeight := true; fontStyle := fontStyle st;
       textDecoration := textDecoration st;
       color := color st; backgroundColor := backgroundColor st |}
  else if num_eq code 3 then
    {| fontWeight := fontWeight st; fontStyle := true;
       textDecoration := textDecoration st;
       color := color st; backgroundColor := backgroundColor st |}
  else if num_eq code 4 then
    {| fontWeight := fontWeight st; fontStyle := fontStyle st;
       textDecoration := true;
       color := color st; backgroundColor := backgroundColor st |}
  else if num_ge code 30 && num_le code 37 then
    {| fontWeight := fontWeight st; fontStyle := fontStyle st;
       textDecoration := textDecoration st;
       color := ANSI_COLORS_at (num_sub code 30);
       backgroundColor := backgroundColor st |}
  else if num_ge code 90 && num_le code 97 then
    {| fontWeight := fontWeight st; fontStyle := fontStyle st;
       textDecoration := textDecoration st;
       color := ANSI_COLORS_at (num_sub code 82);
       backgroundColor := backgroundColor st |}
  else if num_ge code 40 && num_le code 47 then
    {| fontWeight := fontWeight st; fontStyle := fontStyle st;
       textDecoration := textDecoration st;
       color := color st;
       backgroundColor := ANSI_COLORS_at (num_sub code 40) |}
  else if num_ge code 100 && num_le code 107 then
    {| fontWeight := fontWeight st; fontStyle := fontStyle st;
       textDecoration := textDecoration st;
       color := color st;
       backgroundColor := ANSI_COLORS_at (num_sub code 92) |}
  else st.

(** [for (let i = 0; i < codes.length; i++) ...] *)
Definition applyCodes (st : SpanStyle) (codes : list jsnum) : SpanStyle :=
  foldl applyCode st codes.

(** [while (position < input.length && input[position] !== 'm')
      { code += input[position]; position++; }]
    returning the final [code] and [position]. *)
Equations? collectCode (input : jsstring) (code : jsstring) (position : nat)
  : jsstring * nat by wf (length input - position) lt :=
  collectCode input code position with decide (position < length input) := {
    | right _ => (code, position)
    | left _ with decide (input !! position = Some LOWER_M) := {
        | left _ => (code, position)
        | right _ =>
            collectCode input (append_indexed code (input !! position))
                        (position + 1) } }.
Proof. lia. Qed.

Lemma collectCode_position input code position :
  position <= (collectCode input code position).2.
Proof.
  funelim (collectCode input code position); simpl; lia.
Qed.

Section Parser.

(** The built-in [Number], applied by [map] to each piece of the code body
    (string to number conversion). *)
Variable Number : jsstring -> jsnum.

(** The variables of [parseAnsi] that the [while] loop updates. *)
Record LoopState := {
  result : list Span;
  currentSpan : Span;
  position : nat
}.

(** [input[position] === '\u001b' && input[position + 1] === '['] *)
Definition atIntroducer (input : jsstring) (position : nat) : bool :=
  bool_decide (input !! position = Some ESC)
  && bool_decide (input !! (position + 1) = Some LBRACKET).

(** [if (currentSpan.text) { result.push({ ...currentSpan });
       currentSpan = { text: '', style: { ...currentSpan.style } }; }]
    The pushed span keeps the old style object and [currentSpan] gets a
    copy, so the assignments to [currentSpan.style] that follow never reach
    a span already in [result]. *)
Definition flush (s : LoopState) : LoopState :=
  if decide (text (currentSpan s) = []) then s
  else {| result := result s ++ [currentSpan s];
          currentSpan := {| text := []; style := style (currentSpan s) |};
          position := position s |}.

(** The escape branch of the loop body. *)
Definition escapeSequence (input : jsstring) (s : LoopState) : LoopState :=
  let s := flush s in
  let position := position s + 2 in
  let '(code, position) := collectCode input [] position in
  let position := position + 1 in
  let codes := map Number (split SEMICOLON code) in
  {| result := result s;
     currentSpan := {| text := text (currentSpan s);
                       style := applyCodes (style (currentSpan s)) codes |};
     position := position |}.

(** The other branch: [currentSpan.text += input[position]; position++]. *)
Definition plainCharacter (input : jsstring) (s : LoopState) : LoopState :=
  {| result := result s;
     currentSpan :=
       {| text := append_indexed (text (currentSpan s)) (input !! position s);
          style := style (currentSpan s) |};
     position := position s + 1 |}.

Definition loopBody (input : jsstring) (s : LoopState) : LoopState :=
  if atIntroducer input (position s) then escapeSequence input s
  else plainCharacter input s.

Lemma flush_position s : position (flush s) = position s.
Proof. unfold flush. by destruct (decide _). Qed.

Lemma loopBody_advances input s : position s < position (loopBody input s).
Proof.
  unfold loopBody, escapeSequence, plainCharacter.
  destruct (atIntroducer _ _); simpl; [|lia].
  rewrite flush_position.
  pose proof (collectCode_position input [] (position s + 2)) as Hge.
  destruct (collectCode _ _ _) as [code p]. simpl in *. lia.
Qed.

(** [while (position < input.length) { ... }] *)
Equations? parseLoop (input : jsstring) (s : LoopState) : LoopState
  by wf (length input - position s) lt :=
  parseLoop input s with decide (position s < length input) := {
    | left _ => parseLoop input (loopBody input s)
    | right _ => s }.
Proof. pose proof (loopBody_advances input s). lia. Qed.

(** [const result = []; let currentSpan = { text: '', style: {} };
     let position = 0;] *)
Definition initial : LoopState :=
  {| result := [];
     currentSpan := {| text := []; style := emptyStyle |};
     position := 0 |}.

(** [if (currentSpan.text) { result.push(currentSpan); } return result;] *)
Definition finish (s : LoopState) : list Span :=
  if decide (text (currentSpan s) = []) then result s
  else result s ++ [currentSpan s].

Definition parseAnsi (input : jsstring) : list Span :=
  finish (parseLoop input initial).

End Parser.

End AnsiParser.

(** ** The themed variant of the parser

    The second [AnsiParser] component of the repository. Its [parseAnsi] is
    written out again here as that file has it; it declares the same [Span]
    and [SpanStyle] interfaces, and colours become references to CSS
    variables instead of entries of a palette. (Its [ANSI_COLORS], with a
    light and a dark palette, only feeds the style sheet the component
    renders, not [parseAnsi].) *)
Module ThemedAnsiParser.

Import AnsiParser.

Section Parser.

Variable Number : jsstring -> jsnum.

(** The string a number becomes inside a template literal. *)
Variable NumberToString : jsnum -> jsstring.

(** [`var(--ansi-${n})`] and [`var(--ansi-bg-${n})`] *)
Definition ansiVar (n : jsnum) : jsstring :=
  js "var(--ansi-" ++ NumberToString n ++ js ")".

Definition ansiBgVar (n : jsnum) : jsstring :=
  js "var(--ansi-bg-" ++ NumberToString n ++ js ")".

Definition applyCode (st : SpanStyle) (code : jsnum) : SpanStyle :=
  if num_eq code 0 then emptyStyle
  else if num_eq code 1 then
    {| fontWeight := true; fontStyle := fontStyle st;
       textDecoration := textDecoration st;
       color := color st; backgroundColor := backgroundColor st |}
  else if num_eq code 3 then
    {| fontWeight := fontWeight st; fontStyle := true;
       textDecoration := textDecoration st;
       color := color st; backgroundColor := backgroundColor st |}
  else if num_eq code 4 then
    {| fontWeight := fontWeight st; fontStyle := fontStyle st;
       textDecoration := true;
       color := color st; backgroundColor := backgroundColor st |}
  else if num_ge code 30 && num_le code 37 then
    {| fontWeight := fontWeight st; fontStyle := fontStyle st;
       textDecoration := textDecoration st;
       color := Some (ansiVar (num_sub code 30));
       backgroundColor := backgroundColor st |}
  else if num_ge code 90 && num_le code 97 then
    {| fontWeight := fontWeight st; fontStyle := fontStyle st;
       textDecoration := textDecoration st;
       color := Some (ansiVar (num_sub code 82));
       backgroundColor := backgroundColor st |}
  else if num_ge code 40 && num_le code 47 then
    {| fontWeight := fontWeight st; fontStyle := fontStyle st;
       textDecoration := textDecoration st;
       color := color st;
       backgroundColor := Some (ansiBgVar (num_sub code 40)) |}
  else if num_ge code 100 && num_le code 107 then
    {| fontWeight := fontWeight st; fontStyle := fontStyle st;
       textDecoration := textDecoration st;
       color := color st;
       backgroundColor := Some (ansiBgVar (num_sub code 92)) |}
  else st.

Definition applyCodes (st : SpanStyle) (codes : list jsnum) : SpanStyle :=
  foldl applyCode st codes.

Equations? collectCode (input : jsstring) (code : jsstring) (position : nat)
  : jsstring * nat by wf (length input - position) lt :=
  collectCode input code position with decide (position < length input) := {
    | right _ => (code, position)
    | left _ with decide (input !! position = Some LOWER_M) := {
        | left _ => (code, position)
        | right _ =>
            collectCode input (append_indexed code (input !! position))
                        (position + 1) } }.
Proof. lia. Qed.

Lemma themed_collectCode_position input code position :
  position <= (collectCode input code position).2.
Proof.
  funelim (collectCode input code position); simpl; lia.
Qed.

Definition atIntroducer (input : jsstring) (position : nat) : bool :=
  bool_decide (input !! position = Some ESC)
  && bool_decide (input !! (position + 1) = Some LBRACKET).

Definition flush (s : LoopState) : LoopState :=
  if decide (text (currentSpan s) = []) then s
  else {| result := result s ++ [currentSpan s];
          currentSpan := {| text := []; style := style (currentSpan s) |};
          position := position s |}.

Definition escapeSequence (input : jsstring) (s : LoopState) : LoopState :=
  let s := flush s in
  let position := position s + 2 in
  let '(code, position) := collectCode input [] position in
  let position := position + 1 in
  let codes := map Number (split SEMICOLON code) in
  {| result := result s;
     currentSpan := {| text := text (currentSpan s);
                       style := applyCodes (style (currentSpan s)) codes |};
     position := position |}.

Definition plainCharacter (input : jsstring) (s : LoopState) : LoopState :=
  {| result := result s;
     currentSpan :=
       {| text := append_indexed (text (currentSpan s)) (input !! position s);
          style := style (currentSpan s) |};
     position := position s + 1 |}.

Definition loopBody (input : jsstring) (s : LoopState) : LoopState :=
  if atIntroducer input (position s) then escapeSequence input s
  else plainCharacter input s.

Lemma themed_loopBody_advances input s :
  position s < position (loopBody input s).
Proof.
  unfold loopBody, escapeSequence, plainCharacter.
  destruct (atIntroducer _ _); simpl; [|lia].
  assert (position (flush s) = position s) as ->.
  { unfold flush. by case_decide. }
  pose proof (themed_collectCode_position input [] (position s + 2)) as Hge.
  destruct (collectCode _ _ _) as [code p]. simpl in *. lia.
Qed.

Equations? parseLoop (input : jsstring) (s : LoopState) : LoopState
  by wf (length input - position s) lt :=
  parseLoop input s with decide (position s < length input) := {
    | left _ => parseLoop input (loopBody input s)
    | right _ => s }.
Proof. pose proof (themed_loopBody_advances input s). lia. Qed.

Definition initial : LoopState :=
  {| result := [];
     currentSpan := {| text := []; style := emptyStyle |};
     position := 0 |}.

Definition finish (s : LoopState) : list Span :=
  if decide (text (currentSpan s) = []) then result s
  else result s ++ [currentSpan s].

Definition parseAnsi (input : jsstring) : list Span :=
  finish (parseLoop input initial).

End Parser.

End ThemedAnsiParser.

(** ** [src/pages/[server]/Console.tsx]: the console session *)
Module Console.

(** *** Values of the wire and of the component state

    What [JSON.parse] returns, and [undefined], which reading an absent
    property gives. An object is the list of its own properties; a name
    occurs once. *)
#[local] Unset Elimination Schemes.
Inductive JsValue :=
| JUndefined
| JNull
| JBool (b : bool)
| JNum (n : jsnum)
| JStr (s : jsstring)
| JArr (items : list JsValue)
| JObj (fields : list (jsstring * JsValue)).
#[local] Set Elimination Schemes.

(** [x ? ... : ...], [!x], [x || y]: whether [x] is truthy. *)
Definition truthy (v : JsValue) : bool :=
  match v with
  | JUndefined | JNull => false
  | JBool b => b
  | JNum NaN => false
  | JNum (Fin q) => negb (Qeq_bool q 0)
  | JNum (Infinity _) => true
  | JStr s => negb (bool_decide (s = []))
  | JArr _ | JObj _ => true
  end.

(** [x === 'literal'] *)
Definition isString (v : JsValue) (literal : jsstring) : bool :=
  match v with
  | JStr s => bool_decide (s = literal)
  | _ => false
  end.

(** The own property [k] of an object. *)
Fixpoint field (fields : list (jsstring * JsValue)) (k : jsstring)
  : option JsValue :=
  match fields with
  | [] => None
  | (name, v) :: rest => if decide (name = k) then Some v else field rest k
  end.

(** What a handler can throw. *)
Inductive Exn := SyntaxError | TypeError | InvalidStateError.

Inductive Completion (A : Type) :=
| Normal (a : A)
| Throw (e : Exn).
Arguments Normal {A} a.
Arguments Throw {A} e.

(** [v.k] for the property names the handlers read ([event], [data],
    [message], [logs], [cpu_percent], [memory], [network], [rx_bytes],
    [tx_bytes], [state], [status]): none of them is a property of a string,
    number, boolean or array, or inherited by an object. *)
Definition getProperty (v : JsValue) (k : jsstring) : Completion JsValue :=
  match v with
  | JUndefined | JNull => Throw TypeError
  | JObj fields => Normal (default JUndefined (field fields k))
  | _ => Normal JUndefined
  end.

Inductive ReadyState := CONNECTING | OPEN | CLOSING | CLOSED.

(** [ServerDetails], as far as the console uses it: the lifecycle state and
    what the socket address is made of. *)
Record ServerDetails := {
  state : JsValue;
  internalId : JsValue;
  node_fqdn : JsValue;
  node_port : JsValue
}.

(** A [WebSocket]: its [readyState], the frames handed to the network so
    far (each the value given to [JSON.stringify], oldest first), and the
    [serverData] and token of [initWebSocket] that its address is built
    from and its handlers close over. *)
Record WebSocket := {
  readyState : ReadyState;
  sent : list JsValue;
  serverData : ServerDetails;
  socketToken : JsValue
}.

Record LiveStats := {
  cpuPercent : JsValue;
  memory : JsValue;
  network_rxBytes : JsValue;
  network_txBytes : JsValue
}.

(** The state of [ServerConsolePage]: its [useState] variables and
    [wsRef.current] (a socket, by its index among the sockets created). *)
Record Session := {
  server : option ServerDetails;
  loading : bool;
  error : JsValue;
  messages : list JsValue;
  command : jsstring;
  connected : bool;
  powerLoading : bool;
  liveStats : LiveStats;
  wsRef : option nat
}.

(** The page in its browser: the component, every socket created so far,
    the reconnect timeouts that are pending (each with the [serverData] its
    callback closes over), the [token] entry of [localStorage], and the
    exception of a state updater that threw, if one did: React meets it
    when it applies the update, the render fails and the page is taken
    down. *)
Record World := {
  session : Session;
  sockets : list WebSocket;
  timers : list ServerDetails;
  token : JsValue;
  renderError : option Exn
}.

(** *** Handlers: state with exceptions *)

Definition M (A : Type) : Type := World -> Completion A * World.

Definition ret {A} (a : A) : M A := fun w => (Normal a, w).

Definition throw {A} (e : Exn) : M A := fun w => (Throw e, w).

Definition bind {A B} (m : M A) (k : A -> M B) : M B :=
  fun w =>
    match m w with
    | (Normal a, w') => k a w'
    | (Throw e, w') => (Throw e, w')
    end.

(** [try { body } catch (e) { handler e }] *)
Definition try_catch {A} (body : M A) (handler : Exn -> M A) : M A :=
  fun w =>
    match body w with
    | (Normal a, w') => (Normal a, w')
    | (Throw e, w') => handler e w'
    end.

Definition lift {A} (c : Completion A) : M A := fun w => (c, w).

Definition read {A} (f : World -> A) : M A := fun w => (Normal (f w), w).

Definition modify (f : World -> World) : M unit := fun w => (Normal tt, f w).

Notation "'let!' x ':=' m 'in' k" := (bind m (fun x => k))
  (at level 10, x name, m at level 100, k at level 200).
Notation "m '>>' k" := (bind m (fun _ => k))
  (at level 100, k at level 200, right associativity).

Definition when (b : bool) (m : M unit) : M unit :=
  if b then m else ret tt.

(** The [useState] setters. An updater function passed to a setter is
    applied when the update is made; updates are made in the order of the
    calls, each at its call. *)
Definition withSession (f : Session -> Session) (w : World) : World :=
  {| session := f (session w); sockets := sockets w;
     timers := timers w; token := token w;
     renderError := renderError w |}.

Definition setServer (f : option ServerDetails -> option ServerDetails)
  : M unit :=
  modify (withSession (fun s =>
    {| server := f (server s); loading := loading s; error := error s;
       messages := messages s; command := command s;
       connected := connected s; powerLoading := powerLoading s;
       liveStats := liveStats s; wsRef := wsRef s |})).

Definition setError (v : JsValue) : M unit :=
  modify (withSession (fun s =>
    {| server := server s; loading := loading s; error := v;
       messages := messages s; command := command s;
       connected := connected s; powerLoading := powerLoading s;
       liveStats := liveStats s; wsRef := wsRef s |})).

Definition setMessages (f : list JsValue -> list JsValue) : M unit :=
  modify (withSession (fun s =>
    {| server := server s; loading := loading s; error := error s;
       messages := f (messages s); command := command s;
       connected := connected s; powerLoading := powerLoading s;
       liveStats := liveStats s; wsRef := wsRef s |})).

(** [setMessages(prev => [...prev, line])] where computing [line] can
    throw: the call itself returns, and the failed update is what the
    render then meets. *)
Definition setMessages_line (line : Completion JsValue) : M unit :=
  match line with
  | Normal l => setMessages (fun prev => prev ++ [l])
  | Throw e =>
      modify (fun w =>
        {| session := session w; sockets := sockets w; timers := timers w;
           token := token w; renderError := Some e |})
  end.

Definition setCommand (c : jsstring) : M unit :=
  modify (withSession (fun s =>
    {| server := server s; loading := loading s; error := error s;
       messages := messages s; command := c;
       connected := connected s; powerLoading := powerLoading s;
       liveStats := liveStats s; wsRef := wsRef s |})).

Definition setConnected (b : bool) : M unit :=
  modify (withSession (fun s =>
    {| server := server s; loading := loading s; error := error s;
       messages := messages s; command := command s;
       connected := b; powerLoading := powerLoading s;
       liveStats := liveStats s; wsRef := wsRef s |})).

Definition setPowerLoading (b : bool) : M unit :=
  modify (withSession (fun s =>
    {| server := server s; loading := loading s; error := error s;
       messages := messages s; command := command s;
       connected := connected s; powerLoading := b;
       liveStats := liveStats s; wsRef := wsRef s |})).

Definition setLoading (b : bool) : M unit :=
  modify (withSession (fun s =>
    {| server := server s; loading := b; error := error s;
       messages := messages s; command := command s;
       connected := connected s; powerLoading := powerLoading s;
       liveStats := liveStats s; wsRef := wsRef s |})).

Definition setLiveStats (l : LiveStats) : M unit :=
  modify (withSession (fun s =>
    {| server := server s; loading := loading s; error := error s;
       messages := messages s; command := command s;
       connected := connected s; powerLoading := powerLoading s;
       liveStats := l; wsRef := wsRef s |})).

(** [wsRef.current = ws] *)
Definition setWsRef (r : option nat) : M unit :=
  modify (withSession (fun s =>
    {| server := server s; loading := loading s; error := error s;
       messages := messages s; command := command s;
       connected := connected s; powerLoading := powerLoading s;
       liveStats := liveStats s; wsRef := r |})).

(** *** The browser's part *)

(** One socket replaced. *)
Definition updateSocket (h : nat) (f : WebSocket -> WebSocket) (w : World)
  : World :=
  {| session := session w;
     sockets := match sockets w !! h with
                | Some ws => <[h := f ws]> (sockets w)
                | None => sockets w
                end;
     timers := timers w; token := token w;
     renderError := renderError w |}.

Definition withReadyState (r : ReadyState) (ws : WebSocket) : WebSocket :=
  {| readyState := r; sent := sent ws; serverData := serverData ws;
     socketToken := socketToken ws |}.

Definition transmit (frame : JsValue) (ws : WebSocket) : WebSocket :=
  {| readyState := readyState ws; sent := sent ws ++ [frame];
     serverData := serverData ws; socketToken := socketToken ws |}.

Definition readyStateOf (h : nat) (w : World) : option ReadyState :=
  readyState <$> sockets w !! h.

(** [ws.send(JSON.stringify(frame))]: throws [InvalidStateError] while the
    socket is connecting, transmits when it is open, and drops the data
    without a word once it is closing or closed. *)
Definition ws_send (h : nat) (frame : JsValue) : M unit :=
  fun w =>
    match readyStateOf h w with
    | Some CONNECTING => (Throw InvalidStateError, w)
    | Some OPEN => (Normal tt, updateSocket h (transmit frame) w)
    | _ => (Normal tt, w)
    end.

(** [ws.close()]: starts the closing handshake unless the socket is closing
    or closed already; the [close] event comes later. *)
Definition ws_close (h : nat) : M unit :=
  fun w =>
    match readyStateOf h w with
    | Some CONNECTING | Some OPEN =>
        (Normal tt, updateSocket h (withReadyState CLOSING) w)
    | _ => (Normal tt, w)
    end.

(** [new WebSocket(wsUrl)], the address taken to be well-formed: a socket
    that is connecting; its index is returned. *)
Definition new_WebSocket (data : ServerDetails) (tok : JsValue) : M nat :=
  fun w =>
    (Normal (length (sockets w)),
     {| session := session w;
        sockets := sockets w ++ [ {| readyState := CONNECTING; sent := [];
                                     serverData := data;
                                     socketToken := tok |} ];
        timers := timers w; token := token w;
     renderError := renderError w |}).

(** [setTimeout(callback, 5000)], the callback closing over [serverData]. *)
Definition setTimeout (data : ServerDetails) : M unit :=
  modify (fun w =>
    {| session := session w; sockets := sockets w;
       timers := timers w ++ [data]; token := token w;
       renderError := renderError w |}).

(** The timeout at index [i] leaves the pending ones as it fires. *)
Definition timerFired (i : nat) : M unit :=
  modify (fun w =>
    {| session := session w; sockets := sockets w;
       timers := delete i (timers w); token := token w;
       renderError := renderError w |}).

(** *** What the frames carry *)

(** An inbound frame by what [JSON.parse(event.data)] makes of it: a
    [SyntaxError], or a value. *)
Inductive Frame :=
| Unparseable
| Json (v : JsValue).

Definition JSON_parse (frame : Frame) : M JsValue :=
  match frame with
  | Unparseable => throw SyntaxError
  | Json v => ret v
  end.

(** [message.k] and [message.data.k] *)
Definition get (v : JsValue) (k : string) : M JsValue :=
  lift (getProperty v (js k)).

Definition data_of (message : JsValue) (k : string) : M JsValue :=
  let! data := get message "data" in get data k.

(** [a || b] on values. *)
Definition or_else (a b : JsValue) : JsValue :=
  if truthy a then a else b.

Section Host.

(** The string the browser makes of a number, and the message it gives an
    exception. *)
Variable NumberToString : jsnum -> jsstring.
Variable ExnMessage : Exn -> jsstring.

(** [`${v}`] and, for [v] other than [null] and [undefined],
    [v.toString()]. An array joins its elements with commas, [null] and
    [undefined] elements giving nothing; an object gives
    ['[object Object]'], unless it has a property [toString] of its own,
    which, coming from JSON, cannot be called. *)
Fixpoint ToString (v : JsValue) : Completion jsstring :=
  match v with
  | JUndefined => Normal (js "undefined")
  | JNull => Normal (js "null")
  | JBool true => Normal (js "true")
  | JBool false => Normal (js "false")
  | JNum n => Normal (NumberToString n)
  | JStr s => Normal s
  | JArr items =>
      let element (x : JsValue) : Completion jsstring :=
        match x with
        | JUndefined | JNull => Normal []
        | _ => ToString x
        end in
      (fix join (l : list JsValue) : Completion jsstring :=
         match l with
         | [] => Normal []
         | [x] => element x
         | x :: rest =>
             match element x with
             | Throw e => Throw e
             | Normal first =>
                 match join rest with
                 | Throw e => Throw e
                 | Normal others => Normal (first ++ js "," ++ others)
                 end
             end
         end) items
  | JObj fields =>
      match field fields (js "toString") with
      | Some _ => Throw TypeError
      | None => Normal (js "[object Object]")
      end
  end.

(** [v.toString()] *)
Definition toString_method (v : JsValue) : Completion jsstring :=
  match v with
  | JUndefined | JNull => Throw TypeError
  | _ => ToString v
  end.

Definition map_completion {A B} (f : A -> B) (c : Completion A)
  : Completion B :=
  match c with
  | Normal a => Normal (f a)
  | Throw e => Throw e
  end.

(** [String.prototype.toLowerCase], for the letters A to Z. No other
    character becomes a letter of ['running'], so the comparison below
    comes out as in the browser. *)
Definition toLowerCase (s : jsstring) : jsstring :=
  (fun c => if (65 <=? c) && (c <=? 90) then c + 32 else c)%N <$> s.

(** [const isServerActive = server?.state?.toLowerCase() === 'running'],
    computed by each render. (A [state] that is neither a string nor
    nullish makes the render throw; no handler runs then.) *)
Definition isServerActive (s : Session) : bool :=
  match server s with
  | Some data =>
      match state data with
      | JStr st => bool_decide (toLowerCase st = js "running")
      | _ => false
      end
  | None => false
  end.

(** *** The handlers of [initWebSocket] *)

(** [ws.onopen] *)
Definition onopen : M unit :=
  setConnected true >> setError JNull.

(** [ws.onmessage] *)
Definition onmessage (frame : Frame) : M unit :=
  let! message := JSON_parse frame in
  let! event := get message "event" in
  if isString event (js "console_output") then
    let! text := data_of message "message" in
    match text with
    | JStr _ => setMessages (fun prev => prev ++ [text])
    | _ => ret tt
    end
  else if isString event (js "auth_success") then
    let! logs := data_of message "logs" in
    if truthy logs then
      match logs with
      | JArr items => setMessages (fun _ => items)
      | _ => throw TypeError
      end
    else ret tt
  else if isString event (js "stats") then
    let! cpu := data_of message "cpu_percent" in
    (match cpu with
     | JUndefined => ret tt
     | _ =>
         let! cpu_percent := data_of message "cpu_percent" in
         let! mem := data_of message "memory" in
         let! net := data_of message "network" in
         let! rx := (if truthy net then get net "rx_bytes"
                     else ret (JNum (num 0))) in
         let! tx := (if truthy net then get net "tx_bytes"
                     else ret (JNum (num 0))) in
         setLiveStats
           {| cpuPercent := or_else cpu_percent (JNum (num 0));
              memory := or_else mem
                          (JObj [ (js "used", JNum (num 0));
                                  (js "limit", JNum (num 0));
                                  (js "percent", JNum (num 0)) ]);
              network_rxBytes := rx;
              network_txBytes := tx |}
     end) >>
    let! st := data_of message "state" in
    when (truthy st)
      (setServer (fun prev =>
         match prev with
         | Some data =>
             Some {| state := or_else st (state data);
                     internalId := internalId data;
                     node_fqdn := node_fqdn data;
                     node_port := node_port data |}
         | None => None
         end))
  else if isString event (js "power_status") then
    let! status := data_of message "status" in
    (match status with
     | JUndefined => ret tt
     | _ => setMessages_line (map_completion JStr (toString_method status))
     end) >>
    setPowerLoading false
  else if isString event (js "error") then
    let! m := data_of message "message" in
    let errorMsg := or_else m (JStr (js "An unknown error occurred")) in
    setError errorMsg >>
    setMessages_line
      (map_completion (fun shown => JStr (js "Error: " ++ shown))
                      (ToString errorMsg)) >>
    setPowerLoading false
  else ret tt.

(** [ws.onclose], of the socket made by [initWebSocket(serverData)]; the
    callback of its timeout is [reconnect] below. *)
Definition onclose (data : ServerDetails) : M unit :=
  setConnected false >> setTimeout data.

(** [ws.onerror] *)
Definition onerror : M unit :=
  setError (JStr (js "We're having trouble connecting to your server...")).

Definition initWebSocket (data : ServerDetails) : M unit :=
  let! tok := read token in
  if negb (truthy tok) then
    setError (JStr (js "Authentication token not found"))
  else
    let! current := read (fun w => wsRef (session w)) in
    match current with
    | Some old => ws_close old
    | None => ret tt
    end >>
    let! ws := new_WebSocket data tok in
    setWsRef (Some ws).

(** The callback given to [setTimeout] by [ws.onclose]:
    [if (!wsRef.current || wsRef.current.readyState === WebSocket.CLOSED)
       initWebSocket(serverData)]. *)
Definition reconnect (data : ServerDetails) : M unit :=
  let! current := read (fun w => wsRef (session w)) in
  match current with
  | None => initWebSocket data
  | Some h =>
      let! r := read (readyStateOf h) in
      match r with
      | Some CLOSED => initWebSocket data
      | _ => ret tt
      end
  end.

(** [fetchServer], once the request has answered with [data]: the [try]
    block from the check of [data.node], its [catch] and its [finally]. *)
Definition fetchServer (data : ServerDetails) : M unit :=
  (if negb (truthy (node_fqdn data)) || negb (truthy (node_port data)) then
     setError (JStr (js "Server node information is missing"))
   else
     setServer (fun _ => Some data) >> initWebSocket data) >>
  setLoading false.

(** The cleanup of the effect: [if (wsRef.current) wsRef.current.close()]. *)
Definition cleanup : M unit :=
  let! current := read (fun w => wsRef (session w)) in
  match current with
  | Some h => ws_close h
  | None => ret tt
  end.

(** *** What the user does *)

Definition notConnectedLine : jsstring :=
  ESC :: js "[33m[System] Cannot send command - WebSocket not connected or empty command"
  ++ ESC :: js "[0m".

Definition notRunningLine : jsstring :=
  ESC :: js "[33m[System] Cannot send command - server is not running"
  ++ ESC :: js "[0m".

(** ['\x1b[32m$ \x1b[0m' + command + '\x1b[0m'] *)
Definition echoLine (command : jsstring) : jsstring :=
  (ESC :: js "[32m$ " ++ ESC :: js "[0m") ++ command ++ ESC :: js "[0m".

(** [`${error}`] for a caught exception: its name, then its message if it
    has one. *)
Definition exnName (e : Exn) : jsstring :=
  match e with
  | SyntaxError => js "SyntaxError"
  | TypeError => js "TypeError"
  | InvalidStateError => js "InvalidStateError"
  end.

Definition exnToString (e : Exn) : jsstring :=
  if decide (ExnMessage e = []) then exnName e
  else exnName e ++ js ": " ++ ExnMessage e.

Definition failedLine (e : Exn) : jsstring :=
  ESC :: js "[31m[System] Failed to send command: " ++ exnToString e
  ++ ESC :: js "[0m".

(** [{ event: 'send_command', data: command }] *)
Definition send_command_frame (command : jsstring) : JsValue :=
  JObj [ (js "event", JStr (js "send_command")); (js "data", JStr command) ].

(** [wsRef.current.send(...)]: through the socket [wsRef.current] is. *)
Definition wsRef_current_send (frame : JsValue) : M unit :=
  let! current := read (fun w => wsRef (session w)) in
  match current with
  | Some ws => ws_send ws frame
  | None => throw TypeError
  end.

Definition sendCommand : M unit :=
  let! s := read session in
  if bool_decide (trim (command s) = []) || bool_decide (wsRef s = None) then
    setMessages (fun prev => prev ++ [JStr notConnectedLine])
  else if negb (isServerActive s) then
    setMessages (fun prev => prev ++ [JStr notRunningLine])
  else
    try_catch
      (wsRef_current_send (send_command_frame (command s)) >>
       setMessages (fun prev => prev ++ [JStr (echoLine (command s))]) >>
       setCommand [])
      (fun e => setMessages (fun prev => prev ++ [JStr (failedLine e)])).

Inductive Action := start | stop | restart.

Definition actionName (a : Action) : jsstring :=
  match a with
  | start => js "start"
  | stop => js "stop"
  | restart => js "restart"
  end.

(** [{ event: 'power_action', data: { action } }] *)
Definition power_action_frame (a : Action) : JsValue :=
  JObj [ (js "event", JStr (js "power_action"));
         (js "data", JObj [ (js "action", JStr (actionName a)) ]) ].

Definition handlePowerAction (a : Action) : M unit :=
  let! s := read session in
  if bool_decide (server s = None) || powerLoading s
     || bool_decide (wsRef s = None)
  then ret tt
  else
    setPowerLoading true >>
    try_catch
      (wsRef_current_send (power_action_frame a))
      (fun err => setError (JStr (ExnMessage err)) >> setPowerLoading false).

(** The [disabled] attribute of the three power buttons. *)
Definition powerButtonDisabled (a : Action) (s : Session) : bool :=
  match a with
  | start => powerLoading s || isServerActive s
  | restart | stop => powerLoading s || negb (isServerActive s)
  end.

(** A click on a power button: the page shows the buttons once [loading]
    is over, a disabled button takes no click, and [onClick] calls
    [handlePowerAction]. *)
Definition clickPowerButton (a : Action) : M unit :=
  let! s := read session in
  if loading s || powerButtonDisabled a s then ret tt
  else handlePowerAction a.

(** The [disabled] attribute of the submit button of the command form:
    [!connected || !isServerActive]. While it holds the form cannot be
    submitted, by the button or by the Enter key. *)
Definition submitDisabled (s : Session) : bool :=
  negb (connected s) || negb (isServerActive s).

(** *** The page over time *)

Inductive Event :=
| FetchServer (data : ServerDetails)
| SocketOpen (h : nat)
| SocketMessage (h : nat) (frame : Frame)
| SocketError (h : nat)
| SocketClose (h : nat)
| TimerFires (i : nat)
| TypeCommand (text : jsstring)
| SubmitCommand
| ClickPower (a : Action)
| Unmount.

(** One event: what the browser does to the socket, then the handler. *)
Definition step (e : Event) : M unit :=
  match e with
  | FetchServer data => fetchServer data
  | SocketOpen h =>
      let! r := read (readyStateOf h) in
      match r with
      | Some CONNECTING =>
          modify (updateSocket h (withReadyState OPEN)) >> onopen
      | _ => ret tt
      end
  | SocketMessage h frame =>
      let! r := read (readyStateOf h) in
      match r with
      | Some OPEN | Some CLOSING => onmessage frame
      | _ => ret tt
      end
  | SocketError h =>
      let! r := read (readyStateOf h) in
      match r with
      | Some _ => onerror
      | None => ret tt
      end
  | SocketClose h =>
      let! ws := read (fun w => sockets w !! h) in
      match ws with
      | Some ws =>
          match readyState ws with
          | CLOSED => ret tt
          | _ => modify (updateSocket h (withReadyState CLOSED)) >>
                 onclose (serverData ws)
          end
      | None => ret tt
      end
  | TimerFires i =>
      let! pending := read (fun w => timers w !! i) in
      match pending with
      | Some data => timerFired i >> reconnect data
      | None => ret tt
      end
  | TypeCommand text => setCommand text
  | SubmitCommand =>
      let! s := read session in
      if loading s || submitDisabled s then ret tt else sendCommand
  | ClickPower a => clickPowerButton a
  | Unmount => cleanup
  end.

(** A sequence of events; an exception ends the handler it escapes from,
    not the page. *)
Definition run (events : list Event) (w : World) : World :=
  foldl (fun w e => (step e w).2) w events.

(** Frames dispatched one after the other. *)
Definition dispatch (frames : list Frame) (w : World) : World :=
  foldl (fun w frame => (onmessage frame w).2) w frames.

End Host.

(** The page as it is first rendered. *)
Definition initialSession : Session :=
  {| server := None; loading := true; error := JNull; messages := [];
     command := []; connected := false; powerLoading := false;
     liveStats := {| cpuPercent := JNum (num 0);
                     memory := JObj [ (js "used", JNum (num 0));
                                      (js "limit", JNum (num 0));
                                      (js "percent", JNum (num 0)) ];
                     network_rxBytes := JNum (num 0);
                     network_txBytes := JNum (num 0) |};
     wsRef := None |}.

Definition initialWorld (tok : JsValue) : World :=
  {| session := initialSession; sockets := []; timers := []; token := tok;
     renderError := None |}.

(** *** A browser to run the page in

    Number formatting that is right on the integers below 10^21 in
    magnitude, [NaN] and the infinities. No example below uses another
    number: a fraction is shown as [NaN] here, and an integer from 10^21
    on with all its digits, where the browser writes an exponent. The
    exception messages are those of one browser. *)
Definition sampleNumberToString (n : jsnum) : jsstring :=
  match n with
  | NaN => js "NaN"
  | Infinity false => js "Infinity"
  | Infinity true => js "-Infinity"
  | Fin _ =>
      match as_integer n with
      | Some k => js (NilZero.string_of_int (Z.to_int k))
      | None => js "NaN"
      end
  end.

Definition sampleExnMessage (e : Exn) : jsstring :=
  match e with
  | SyntaxError => js "Unexpected token in JSON"
  | TypeError => js "Cannot read properties of undefined"
  | InvalidStateError =>
      js "Failed to execute 'send' on 'WebSocket': Still in CONNECTING state."
  end.

Definition sampleRun : list Event -> World -> World :=
  run sampleNumberToString sampleExnMessage.

Definition serverIn (lifecycle : string) : ServerDetails :=
  {| state := JStr (js lifecycle);
     internalId := JStr (js "a1b2c3-d4");
     node_fqdn := JStr (js "node1.example.net");
     node_port := JNum (num 8080) |}.

(** The page of a server in the given lifecycle state, its socket open. *)
Definition openPage (lifecycle : string) : World :=
  sampleRun [FetchServer (serverIn lifecycle); SocketOpen 0]
            (initialWorld (JStr (js "secret"))).

End Console.

(** ** What the console page shows of the connection and of the state *)
Module ConsoleView.

Import Console.

(** [checkWebSocketStatus], the text under the console. The [default] of
    its [switch] is for a [readyState] that is none of the four. *)
Definition checkWebSocketStatus (w : World) : jsstring :=
  match wsRef (session w) with
  | None => js "No WebSocket connection"
  | Some h =>
      match readyStateOf h w with
      | Some CONNECTING => js "Connecting..."
      | Some OPEN => js "Connected"
      | Some CLOSING => js "Closing..."
      | Some CLOSED => js "Closed"
      | None => js "Unknown"
      end
  end.

(** [getStateColor(state)]: [state?.toLowerCase()] is [undefined] for a
    nullish [state] and throws for a value without that method.
    [toLowerCase] is the one of the console, right on what is compared with
    the three names. *)
Definition getStateColor (state : JsValue) : Completion jsstring :=
  match state with
  | JUndefined | JNull => Normal (js "text-gray-500")
  | JStr st =>
      let lower := toLowerCase st in
      if decide (lower = js "running") then Normal (js "text-green-500")
      else if decide (lower = js "stopped") then Normal (js "text-red-500")
      else if decide (lower = js "installing")
           then Normal (js "text-yellow-500")
      else Normal (js "text-gray-500")
  | _ => Throw TypeError
  end.

(** [getStateColor(server?.state || '')], the colour of the state shown
    in the header. *)
Definition stateColor (s : Session) : Completion jsstring :=
  getStateColor
    (or_else match server s with
             | Some data => state data
             | None => JUndefined
             end
             (JStr [])).

End ConsoleView.

(** ** The file manager of [src/pages/[server]/Console.tsx]

    What [FileManager] computes without the network: the type of a file
    and the actions of its context menu, the listing, the path, the
    selection and the drop zone. *)
Module FileManager.

(** [FileEntry]; times and sizes are numbers. *)
Record FileEntry := {
  name : jsstring;
  mode : jsstring;
  size : jsnum;
  isFile : bool;
  isSymlink : bool;
  modifiedAt : jsnum;
  createdAt : jsnum;
  mime : jsstring
}.

(** *** File types *)

Inductive Icon :=
  FileText | Code | Image | Music | Video | Package | File | Folder.

Inductive Editor := monaco.

Record FileTypeInfo := {
  icon : Icon;
  canEdit : bool;
  editor : option Editor
}.

(** [s.startsWith(key)] *)
Definition startsWith (s key : jsstring) : bool :=
  bool_decide (key `prefix_of` s).

(** [fileTypes.default] *)
Definition fileTypes_default : FileTypeInfo :=
  {| icon := File; canEdit := false; editor := None |}.

(** [Object.entries(fileTypes)]: the properties in the order they are
    written, none of the keys being a number. *)
Definition fileTypes : list (jsstring * FileTypeInfo) :=
  [ (js "text/", {| icon := FileText; canEdit := true; editor := Some monaco |});
    (js "application/json",
       {| icon := Code; canEdit := true; editor := Some monaco |});
    (js "application/javascript",
       {| icon := Code; canEdit := true; editor := Some monaco |});
    (js "application/x-yaml",
       {| icon := Code; canEdit := true; editor := Some monaco |});
    (js "image/", {| icon := Image; canEdit := false; editor := None |});
    (js "audio/", {| icon := Music; canEdit := false; editor := None |});
    (js "video/", {| icon := Video; canEdit := false; editor := None |});
    (js "application/zip",
       {| icon := Package; canEdit := false; editor := None |});
    (js "default", fileTypes_default) ].

Definition getFileTypeInfo (mime : jsstring) : FileTypeInfo :=
  match List.find (fun entry => startsWith mime entry.1) fileTypes with
  | Some entry => entry.2
  | None => fileTypes_default
  end.

Definition canExtractFile (mime : jsstring) : bool :=
  bool_decide (mime ∈ [ js "application/zip"; js "application/x-tar";
                        js "application/x-gzip";
                        js "application/x-rar-compressed" ]).

(** The [actions] of [ContextMenu]: ['edit'], ['extract'], ['download'],
    ['copy'], ['delete']. *)
Inductive MenuAction :=
  MenuEdit | MenuExtract | MenuDownload | MenuCopy | MenuDelete.

Definition actions (file : FileEntry) : list MenuAction :=
  (if canEdit (getFileTypeInfo (mime file)) then [MenuEdit] else [])
  ++ (if canExtractFile (mime file) then [MenuExtract] else [])
  ++ [MenuDownload; MenuCopy; MenuDelete].

(** *** The path *)

(** [currentPath.join('/')] *)
Fixpoint join (sep : jsstring) (parts : list jsstring) : jsstring :=
  match parts with
  | [] => []
  | [part] => part
  | part :: rest => part ++ sep ++ join sep rest
  end.

Definition currentFullPath (currentPath : list jsstring) : jsstring :=
  join (js "/") currentPath.

(** The arrow: [prev.slice(0, -1)]. *)
Definition goBack (currentPath : list jsstring) : list jsstring :=
  take (length currentPath - 1) currentPath.

(** The [home] button. *)
Definition goHome : list jsstring := [].

(** The button of the segment at [index]: [prev.slice(0, index + 1)]. *)
Definition goToSegment (index : nat) (currentPath : list jsstring)
  : list jsstring :=
  take (index + 1) currentPath.

(** A click on the row of a folder: [[...currentPath, file.name]]. *)
Definition enterFolder (currentPath : list jsstring) (file : FileEntry)
  : list jsstring :=
  currentPath ++ [name file].

(** What a click on a row does: the editor for a file that can be edited,
    the folder for a folder, nothing for another file. *)
Inductive RowClick :=
| OpenEditor
| EnterFolder (path : list jsstring)
| NoAction.

Definition rowClick (currentPath : list jsstring) (file : FileEntry)
  : RowClick :=
  if canEdit (getFileTypeInfo (mime file)) && isFile file then OpenEditor
  else if negb (isFile file) then EnterFolder (enterFolder currentPath file)
  else NoAction.

(** *** The selection

    A [Set] of names: its elements in the order they were added, none
    twice. *)
Definition NameSet := list jsstring.

Definition Set_has (s : NameSet) (x : jsstring) : bool :=
  bool_decide (x ∈ s).

Definition Set_add (s : NameSet) (x : jsstring) : NameSet :=
  if Set_has s x then s else s ++ [x].

Definition Set_delete (s : NameSet) (x : jsstring) : NameSet :=
  filter (fun y => y ≠ x) s.

(** [new Set(names)] *)
Definition newSet (names : list jsstring) : NameSet :=
  foldl Set_add [] names.

(** The checkbox of a row. *)
Definition toggle (selectedFiles : NameSet) (file : FileEntry) : NameSet :=
  if Set_has selectedFiles (name file)
  then Set_delete selectedFiles (name file)
  else Set_add selectedFiles (name file).

(** The checkbox of the header: checked, and what a change does. *)
Definition allChecked (selectedFiles : NameSet) (sortedFiles : list FileEntry)
  : bool :=
  bool_decide (length selectedFiles = length sortedFiles)
  && bool_decide (0 < length sortedFiles).

Definition checkAll (checked : bool) (sortedFiles : list FileEntry) : NameSet :=
  if checked then newSet (name <$> sortedFiles) else [].

(** *** The drop zone *)

Inductive DragEvent := DragEnter | DragLeave | DragOver | DragDrop.

(** [dragCounterRef.current], a number that stays an integer, and
    [dropZoneActive]. *)
Record DropZone := {
  dragCounter : Z;
  dropZoneActive : bool
}.

(** [handleDrag] for the first three events, [handleDrop] for the last
    (the upload it starts is not part of the drop zone). *)
Definition handleDrag (e : DragEvent) (zone : DropZone) : DropZone :=
  let counter :=
    match e with
    | DragEnter => (dragCounter zone + 1)%Z
    | DragLeave => (dragCounter zone - 1)%Z
    | _ => dragCounter zone
    end in
  {| dragCounter := counter;
     dropZoneActive :=
       match e with
       | DragEnter => if (counter =? 1)%Z then true else dropZoneActive zone
       | DragLeave => if (counter =? 0)%Z then false else dropZoneActive zone
       | _ => dropZoneActive zone
       end |}.

Definition handleDrop (zone : DropZone) : DropZone :=
  {| dragCounter := 0; dropZoneActive := false |}.

Definition onDragEvent (zone : DropZone) (e : DragEvent) : DropZone :=
  match e with
  | DragDrop => handleDrop zone
  | _ => handleDrag e zone
  end.

Definition initialDropZone : DropZone :=
  {| dragCounter := 0; dropZoneActive := false |}.

(** *** The listing *)

(** [s.includes(sub)]: [sub] starts at some position of [s]. *)
Definition includes (s sub : jsstring) : bool :=
  existsb (fun i => startsWith (drop i s) sub) (seq 0 (S (length s))).

Section Listing.

(** [String.prototype.toLowerCase] and [String.prototype.localeCompare],
    which are the browser's. *)
Variable toLowerCase : jsstring -> jsstring.
Variable localeCompare : jsstring -> jsstring -> Z.

(** The comparator of [sortedFiles]. *)
Definition compareFiles (a b : FileEntry) : Z :=
  if negb (eqb (isFile a) (isFile b)) then (if isFile a then 1 else -1)%Z
  else localeCompare (name a) (name b).

(** [Array.prototype.sort] with a comparator. The sort is stable; with a
    comparator that is an order, this is the array it gives. *)
Fixpoint insertSorted (cmp : FileEntry -> FileEntry -> Z) (x : FileEntry)
    (sorted : list FileEntry) : list FileEntry :=
  match sorted with
  | [] => [x]
  | y :: rest =>
      if (cmp x y <=? 0)%Z then x :: y :: rest
      else y :: insertSorted cmp x rest
  end.

Definition sort (cmp : FileEntry -> FileEntry -> Z) (l : list FileEntry)
  : list FileEntry :=
  foldr (insertSorted cmp) [] l.

Definition sortedFiles (files : list FileEntry) (search : jsstring)
  : list FileEntry :=
  sort compareFiles
    (List.filter
       (fun file => includes (toLowerCase (name file)) (toLowerCase search))
       files).

End Listing.

End FileManager.

(** ** Properties of the formatter *)
Module AnsiParserFacts.

Import AnsiParser.

(** *** The line with its escape sequences removed

    Follows the specification's words: a line of plain characters and
    well-formed escape sequences, each the introducer [ESC] ['['] followed by
    a code body (the characters up to the first ['m']) and the terminator
    ['m']. [Stripped line plain] holds when [line] is such a line and [plain]
    is what is left of it once the escape sequences are removed. *)
Inductive Stripped : jsstring -> jsstring -> Prop :=
| Stripped_end : Stripped [] []
| Stripped_plain c rest plain :
    ¬ (c = ESC ∧ head rest = Some LBRACKET) ->
    Stripped rest plain ->
    Stripped (c :: rest) (c :: plain)
| Stripped_escape body rest plain :
    LOWER_M ∉ body ->
    Stripped rest plain ->
    Stripped (ESC :: LBRACKET :: body ++ LOWER_M :: rest) plain.

(** The text fields of a list of segments, concatenated. *)
Definition texts (spans : list Span) : jsstring :=
  concat (text <$> spans).

(** Everything emitted so far: the segments pushed and the pending text. *)
Definition emitted (s : LoopState) : jsstring :=
  texts (result s) ++ text (currentSpan s).

(** The line of the specification's scenario:
    ["\u001b[32mOK\u001b[0m done"]. *)
Definition scenario_line : jsstring :=
  ESC :: js "[32mOK" ++ ESC :: js "[0m done".

(** [st] with its foreground colour replaced. *)
Definition withColor (st : SpanStyle) (c : option jsstring) : SpanStyle :=
  {| fontWeight := fontWeight st; fontStyle := fontStyle st;
     textDecoration := textDecoration st;
     color := c; backgroundColor := backgroundColor st |}.

(** Every line is of one of two kinds: plain characters and well-formed
    escape sequences throughout, or such a line followed by an introducer
    that no ['m'] follows. *)
Lemma line_stripped_or_unterminated (line : jsstring) :
  (exists plain, Stripped line plain)
  ∨ (exists prefix body plain,
       line = prefix ++ ESC :: LBRACKET :: body
       ∧ (LOWER_M ∉ body) ∧ Stripped prefix plain).
Proof.
  remember (length line) as n eqn:Hn. revert line Hn.
  induction (lt_wf n) as [n _ IH]. intros line Hn.
  destruct line as [|c rest]; [left; exists []; constructor|].
  destruct (decide (c = ESC ∧ head rest = Some LBRACKET)) as [[-> Hhead]|Hc].
  - destruct rest as [|b rest]; [done|]. injection Hhead as ->.
    destruct (decide (LOWER_M ∈ rest)) as [Hin|Hout].
    + apply list_elem_of_split_l in Hin as (body & tail & -> & Hbody).
      destruct (IH (length tail)) with (line := tail)
        as [(plain & Htail)|(prefix & body' & plain & -> & Hbody' & Hprefix)];
        [simpl in Hn; rewrite length_app in Hn; simpl in Hn; lia|done| |].
      * left. exists plain. by constructor.
      * right. exists (ESC :: LBRACKET :: body ++ LOWER_M :: prefix), body', plain.
        split_and!; [|done|by constructor].
        simpl. by rewrite <- app_assoc.
    + right. exists [], rest, []. split_and!; [done|done|constructor].
  - destruct (IH (length rest)) with (line := rest)
      as [(plain & Hrest)|(prefix & body & plain & -> & Hbody & Hprefix)];
      [simpl in Hn; lia|done| |].
    + left. exists (c :: plain). by constructor.
    + right. exists (c :: prefix), body, (c :: plain).
      split_and!; [done|done|].
      constructor; [|done].
      intros [-> Hhead]. apply Hc. split; [done|].
      by destruct prefix.
Qed.

(** *** The loops, one iteration at a time *)

Lemma collectCode_step input code position :
  collectCode input code position =
  if decide (position < length input) then
    if decide (input !! position = Some LOWER_M) then (code, position)
    else collectCode input (append_indexed code (input !! position))
                     (position + 1)
  else (code, position).
Proof.
  funelim (collectCode input code position); simp collectCode;
    repeat case_decide; try done; try lia.
  all: rewrite Heq0; simpl; try rewrite Heq; simpl; done.
Qed.

Lemma parseLoop_step Number input s :
  parseLoop Number input s =
  if decide (position s < length input)
  then parseLoop Number input (loopBody Number input s)
  else s.
Proof.
  funelim (parseLoop Number input s); simp parseLoop;
    rewrite Heq; simpl; case_decide; done || lia.
Qed.

(** *** Positions and suffixes *)

Lemma drop_cons_inv {A} (l : list A) n x tl :
  drop n l = x :: tl -> l !! n = Some x ∧ drop (S n) l = tl ∧ n < length l.
Proof.
  intros Hdrop.
  assert (l !! n = Some x) as Hx.
  { rewrite <- (Nat.add_0_r n), <- lookup_drop, Hdrop. done. }
  split_and!; [done | | by eapply lookup_lt_Some].
  erewrite drop_S in Hdrop by done. by injection Hdrop.
Qed.

Lemma drop_nil_inv {A} (l : list A) n : drop n l = [] -> length l <= n.
Proof. intros Hdrop. apply (f_equal length) in Hdrop. rewrite length_drop in Hdrop. simpl in Hdrop. lia. Qed.

Lemma drop_app_inv {A} (l : list A) n pre post :
  drop n l = pre ++ post -> drop (n + length pre) l = post.
Proof.
  intros Hdrop. rewrite <- drop_drop, Hdrop. by rewrite drop_app_length.
Qed.

(** The inner loop gathers the characters up to the first ['m'], or up to
    the end of the line when there is none, and stops there. *)
Lemma collectCode_body input code position body rest :
  drop position input = body ++ rest ->
  LOWER_M ∉ body ->
  rest = [] ∨ head rest = Some LOWER_M ->
  collectCode input code position = (code ++ body, position + length body).
Proof.
  revert code position.
  induction body as [|c body IH]; intros code position Hdrop Hm Hrest.
  - rewrite collectCode_step, app_nil_r, Nat.add_0_r. simpl in Hdrop.
    destruct Hrest as [-> | Hhead].
    + apply drop_nil_inv in Hdrop. case_decide; [lia | done].
    + destruct rest as [|r rest]; [done|]. injection Hhead as ->.
      apply drop_cons_inv in Hdrop as (Hlook & _ & Hlt).
      rewrite !decide_True by done. done.
  - simpl in Hdrop. apply drop_cons_inv in Hdrop as (Hlook & Hdrop & Hlt).
    apply not_elem_of_cons in Hm as [Hc Hm].
    rewrite collectCode_step, decide_True by done.
    rewrite decide_False by (rewrite Hlook; congruence).
    rewrite Hlook. simpl. replace (position + 1) with (S position) by lia.
    rewrite (IH _ _ Hdrop Hm Hrest), <- app_assoc. simpl.
    f_equal. lia.
Qed.

Section Facts.

Variable Number : jsstring -> jsnum.

Lemma flush_emitted s : emitted (flush s) = emitted s.
Proof.
  unfold flush, emitted, texts. case_decide; [done|]. simpl.
  rewrite fmap_app, concat_app. simpl. by rewrite !app_nil_r.
Qed.

Lemma flush_text s : text (currentSpan (flush s)) = [] ∨ flush s = s.
Proof. unfold flush. case_decide; auto. Qed.

Lemma atIntroducer_drop input position c rest :
  drop position input = c :: rest ->
  atIntroducer input position
  = bool_decide (c = ESC) && bool_decide (head rest = Some LBRACKET).
Proof.
  intros Hdrop. apply drop_cons_inv in Hdrop as (Hlook & Hdrop & _).
  unfold atIntroducer. replace (position + 1) with (S position + 0) by lia.
  rewrite <- lookup_drop, Hdrop, Hlook. f_equal.
  - apply bool_decide_ext. split; congruence.
  - by destruct rest.
Qed.

Lemma parseLoop_stripped input suffix plain :
  Stripped suffix plain ->
  forall s, drop (position s) input = suffix ->
  emitted (parseLoop Number input s) = emitted s ++ plain.
Proof.
  induction 1 as [|c rest plain Hc _ IH|body rest plain Hbody _ IH];
    intros s Hdrop; rewrite parseLoop_step.
  - apply drop_nil_inv in Hdrop. rewrite decide_False by lia.
    by rewrite app_nil_r.
  - pose proof (atIntroducer_drop _ _ _ _ Hdrop) as Hintro.
    apply drop_cons_inv in Hdrop as (Hlook & Hdrop & Hlt).
    rewrite decide_True by done. unfold loopBody. rewrite Hintro.
    rewrite (proj2 (andb_false_iff _ _)); last first.
    { rewrite !bool_decide_eq_false.
      destruct (decide (c = ESC)); [right|left]; naive_solver. }
    rewrite IH; last by (simpl; rewrite Nat.add_1_r).
    unfold emitted, plainCharacter. simpl. rewrite Hlook. simpl.
    by rewrite <- !app_assoc.
  - pose proof (atIntroducer_drop _ _ _ _ Hdrop) as Hintro.
    pose proof (drop_cons_inv _ _ _ _ Hdrop) as (_ & _ & Hlt).
    rewrite decide_True by done. unfold loopBody. rewrite Hintro. simpl.
    unfold escapeSequence. rewrite flush_position.
    change (ESC :: LBRACKET :: body ++ LOWER_M :: rest)
      with ([ESC; LBRACKET] ++ body ++ LOWER_M :: rest) in Hdrop.
    apply drop_app_inv in Hdrop. simpl in Hdrop.
    rewrite (collectCode_body _ _ _ _ _ Hdrop Hbody (or_intror eq_refl)).
    simpl. apply drop_app_inv in Hdrop. rewrite IH.
    + unfold emitted. simpl. apply (f_equal (.++ plain)), flush_emitted.
    + simpl. apply drop_cons_inv in Hdrop as (_ & Hdrop & _).
      rewrite <- Hdrop. f_equal. lia.
Qed.

Lemma finish_texts s : texts (finish s) = emitted s.
Proof.
  unfold finish, emitted, texts. case_decide as Hempty.
  - by rewrite Hempty, app_nil_r.
  - rewrite fmap_app, concat_app. simpl. by rewrite app_nil_r.
Qed.

(** C4: for a line made of plain characters and well-formed escape
    sequences, the text fields of the segments [parseAnsi] returns,
    concatenated in order, are the line with its escape sequences removed. *)
Theorem parseAnsi_texts_roundtrip line plain :
  Stripped line plain -> texts (parseAnsi Number line) = plain.
Proof.
  intros Hline. unfold parseAnsi. rewrite finish_texts.
  assert (drop (position initial) line = line) as Hstart by done.
  rewrite (parseLoop_stripped line line plain Hline initial Hstart).
  unfold emitted, texts. simpl. done.
Qed.

(** C8: a code list that begins with 0 (a number [zero] with [zero === 0])
    gives, from any carried style, the style the remaining codes give from
    the default style. *)
Theorem applyCodes_reset_first (carried : SpanStyle) (zero : jsnum)
    (codes : list jsnum) :
  num_eq zero 0 = true ->
  applyCodes carried (zero :: codes) = applyCodes emptyStyle codes.
Proof.
  intros Hzero. unfold applyCodes. simpl.
  unfold applyCode at 2. by rewrite Hzero.
Qed.

(** C7: the scenario line gives two segments, ["OK"] in the green of the
    palette (slot 2, [#b5cea8]) and [" done"] in the default style; and a
    code [k] in 30..37 sets the foreground to slot [k - 30] of the palette,
    a code in 90..97 to slot [k - 82], each an existing slot. What is used
    of the built-in [Number] is its value on ["32"] and ["0"]. *)
Theorem parseAnsi_scenario_and_foreground :
  Number (js "32") = num 32 ->
  Number (js "0") = num 0 ->
  parseAnsi Number scenario_line
  = [ {| text := js "OK";
         style := withColor emptyStyle (Some (js "#b5cea8")) |};
      {| text := js " done"; style := emptyStyle |} ]
  ∧ ANSI_COLORS !! 2%Z = Some (js "#b5cea8")
  ∧ (forall (st : SpanStyle) (k : Z), (30 <= k <= 37)%Z ->
       applyCode st (num k) = withColor st (ANSI_COLORS !! (k - 30)%Z)
       ∧ is_Some (ANSI_COLORS !! (k - 30)%Z))
  ∧ (forall (st : SpanStyle) (k : Z), (90 <= k <= 97)%Z ->
       applyCode st (num k) = withColor st (ANSI_COLORS !! (k - 82)%Z)
       ∧ is_Some (ANSI_COLORS !! (k - 82)%Z)).
Proof.
  intros H32 H0. split_and!.
  - vm_compute in H32, H0. vm_compute. rewrite H32, H0. reflexivity.
  - reflexivity.
  - intros st k Hk.
    assert (k ∈ [30; 31; 32; 33; 34; 35; 36; 37]%Z) as Hin.
    { rewrite !elem_of_cons. lia. }
    rewrite !elem_of_cons in Hin.
    destruct Hin as [->|[->|[->|[->|[->|[->|[->|[->|[]%elem_of_nil]]]]]]]];
      (split; [reflexivity | by eexists]).
  - intros st k Hk.
    assert (k ∈ [90; 91; 92; 93; 94; 95; 96; 97]%Z) as Hin.
    { rewrite !elem_of_cons. lia. }
    rewrite !elem_of_cons in Hin.
    destruct Hin as [->|[->|[->|[->|[->|[->|[->|[->|[]%elem_of_nil]]]]]]]];
      (split; [reflexivity | by eexists]).
Qed.

(** *** An introducer with no terminator after it *)

Lemma atIntroducer_app prefix tail position :
  position < length prefix ->
  atIntroducer (prefix ++ ESC :: tail) position = atIntroducer prefix position.
Proof.
  intros Hlt. unfold atIntroducer.
  rewrite (lookup_app_l prefix) by done. f_equal.
  destruct (decide (position + 1 < length prefix)) as [Hin|Hout].
  - by rewrite lookup_app_l.
  - rewrite lookup_app_r, (lookup_ge_None_2 prefix) by lia.
    replace (position + 1 - length prefix) with 0 by lia. done.
Qed.

Lemma finish_flushed s st p :
  finish {| result := result (flush s);
            currentSpan := {| text := text (currentSpan (flush s));
                              style := st |};
            position := p |} = finish s.
Proof.
  unfold finish, flush. simpl.
  destruct (decide (text (currentSpan s) = [])) as [Hempty|Hfull]; simpl.
  - by rewrite decide_True.
  - done.
Qed.

Lemma parseLoop_past_end input s :
  length input <= position s -> parseLoop Number input s = s.
Proof. intros Hge. rewrite parseLoop_step. by rewrite decide_False by lia. Qed.

Lemma parseLoop_unterminated prefix body :
  LOWER_M ∉ body ->
  forall n s, length prefix - position s = n ->
  position s <= length prefix ->
  finish (parseLoop Number (prefix ++ ESC :: LBRACKET :: body) s)
  = finish (parseLoop Number prefix s).
Proof.
  intros Hbody n. induction (lt_wf n) as [n _ IH]. intros s Hn Hle.
  set (input := prefix ++ ESC :: LBRACKET :: body).
  assert (length input = length prefix + 2 + length body) as Hlen.
  { unfold input. rewrite length_app. simpl. lia. }
  rewrite (parseLoop_step _ input), (parseLoop_step _ prefix).
  rewrite decide_True by lia.
  destruct (decide (position s < length prefix)) as [Hlt|Hend].
  - (* still inside the prefix *)
    unfold loopBody. unfold input at 2. rewrite atIntroducer_app by done.
    destruct (atIntroducer prefix (position s)) eqn:Hintro.
    + unfold escapeSequence. rewrite flush_position.
      assert (position s + 2 <= length prefix) as Hin.
      { unfold atIntroducer in Hintro.
        apply andb_true_iff in Hintro as [_ Hbr%bool_decide_eq_true].
        apply lookup_lt_Some in Hbr. lia. }
      destruct (decide (LOWER_M ∈ drop (position s + 2) prefix))
        as [Hfound|Hnone].
      * apply list_elem_of_split_l in Hfound as (b & r & Hsplit & Hb).
        rewrite (collectCode_body prefix [] _ b (LOWER_M :: r))
          by (done || by right).
        rewrite (collectCode_body input [] _ b
                   (LOWER_M :: r ++ ESC :: LBRACKET :: body)); first last.
        { by right. } { done. }
        { unfold input. rewrite drop_app_le by lia. rewrite Hsplit.
          by rewrite <- app_assoc. }
        simpl.
        assert (position s + 2 + length b + 1 <= length prefix) as Hnext.
        { apply (f_equal length) in Hsplit.
          rewrite length_drop, length_app in Hsplit. simpl in Hsplit. lia. }
        eapply IH; [|reflexivity|]; simpl; lia.
      * rewrite (collectCode_body prefix [] _
                   (drop (position s + 2) prefix) [])
          by (rewrite ?app_nil_r; done || by left).
        rewrite (collectCode_body input [] _
                   (drop (position s + 2) prefix ++ ESC :: LBRACKET :: body) []);
          first last.
        { by left. }
        { rewrite elem_of_app, !elem_of_cons. unfold ESC, LBRACKET, LOWER_M.
          intros [?|[?|[?|?]]]; done. }
        { unfold input. rewrite drop_app_le by lia. by rewrite app_nil_r. }
        simpl. rewrite !parseLoop_past_end; first last.
        { simpl. rewrite length_app, length_drop. simpl. lia. }
        { simpl. rewrite length_drop. lia. }
        by rewrite !finish_flushed.
    + assert (plainCharacter input s = plainCharacter prefix s) as ->.
      { unfold plainCharacter, input. by rewrite lookup_app_l. }
      eapply IH; [|reflexivity|]; simpl; lia.
  - (* at the introducer *)
    assert (position s = length prefix) as Hpos by lia.
    assert (atIntroducer input (position s) = true) as Hintro.
    { unfold atIntroducer, input. rewrite Hpos.
      rewrite !lookup_app_r by lia.
      replace (length prefix - length prefix) with 0 by lia.
      replace (length prefix + 1 - length prefix) with 1 by lia. done. }
    unfold loopBody. rewrite Hintro. unfold escapeSequence.
    rewrite flush_position.
    rewrite (collectCode_body input [] _ body []); first last.
    { by left. } { done. }
    { unfold input. rewrite Hpos, app_nil_r.
      change (ESC :: LBRACKET :: body) with ([ESC; LBRACKET] ++ body).
      rewrite app_assoc.
      replace (length prefix + 2) with (length (prefix ++ [ESC; LBRACKET]))
        by (rewrite length_app; done).
      by rewrite drop_app_length. }
    simpl. rewrite parseLoop_past_end by (simpl; lia).
    apply finish_flushed.
Qed.

(** The loop ends through its guard: in the state it returns,
    [position < input.length] is false. *)
Lemma parseLoop_exits input s :
  ¬ position (parseLoop Number input s) < length input.
Proof.
  remember (length input - position s) as n eqn:Hn. revert s Hn.
  induction (lt_wf n) as [n _ IH]. intros s Hn.
  rewrite parseLoop_step. case_decide as Hguard; [|done].
  pose proof (loopBody_advances Number input s).
  eapply IH; [|reflexivity]. lia.
Qed.

(** C9: [parseAnsi] is a total function (its loop is defined by recursion on
    [input.length - position], which every iteration decreases, and ends with
    the loop guard false); and when an introducer has no ['m'] after it, the
    result is that of the line cut before the introducer: the segments
    flushed up to there, nothing of what follows being emitted as text. *)
Theorem parseAnsi_unterminated (prefix body : jsstring) :
  LOWER_M ∉ body ->
  parseAnsi Number (prefix ++ ESC :: LBRACKET :: body)
  = parseAnsi Number prefix
  ∧ (forall plain, Stripped prefix plain ->
       texts (parseAnsi Number (prefix ++ ESC :: LBRACKET :: body)) = plain)
  ∧ ¬ position (parseLoop Number (prefix ++ ESC :: LBRACKET :: body) initial)
      < length (prefix ++ ESC :: LBRACKET :: body).
Proof.
  intros Hbody.
  assert (parseAnsi Number (prefix ++ ESC :: LBRACKET :: body)
          = parseAnsi Number prefix) as Hsame.
  { unfold parseAnsi.
    eapply parseLoop_unterminated; [done|reflexivity|simpl; lia]. }
  split_and!; [done| |apply parseLoop_exits].
  intros plain Hprefix. rewrite Hsame. unfold parseAnsi.
  rewrite finish_texts, (parseLoop_stripped prefix prefix plain) by done.
  done.
Qed.

End Facts.

(** *** The theorems at concrete lines *)

Lemma LOWER_M_not_in (body : jsstring) :
  bool_decide (LOWER_M ∉ body) = true -> LOWER_M ∉ body.
Proof. apply bool_decide_eq_true_1. Defined.

Lemma scenario_line_stripped : Stripped scenario_line (js "OK done").
Proof.
  apply (Stripped_escape (js "32") (js "OK" ++ ESC :: js "[0m done"));
    [by apply LOWER_M_not_in|].
  do 2 (apply Stripped_plain; [intros [? _]; discriminate|]).
  apply (Stripped_escape (js "0") (js " done")); [by apply LOWER_M_not_in|].
  do 5 (apply Stripped_plain; [intros [? _]; discriminate|]).
  apply Stripped_end.
Defined.

Lemma parseAnsi_texts_roundtrip_witness :
  Stripped scenario_line (js "OK done")
  ∧ texts (parseAnsi StringToNumber scenario_line) = js "OK done".
Proof.
  split; [exact scenario_line_stripped|].
  exact (parseAnsi_texts_roundtrip StringToNumber scenario_line
           (js "OK done") scenario_line_stripped).
Defined.

Lemma parseAnsi_scenario_and_foreground_witness :
  StringToNumber (js "32") = num 32
  ∧ StringToNumber (js "0") = num 0
  ∧ parseAnsi StringToNumber scenario_line
    = [ {| text := js "OK";
           style := withColor emptyStyle (Some (js "#b5cea8")) |};
        {| text := js " done"; style := emptyStyle |} ].
Proof.
  split_and!; [reflexivity..|].
  exact (proj1 (parseAnsi_scenario_and_foreground StringToNumber
                  eq_refl eq_refl)).
Defined.

Lemma applyCodes_reset_first_witness :
  let bold := applyCodes emptyStyle [num 1] in
  num_eq (StringToNumber (js "0")) 0 = true
  ∧ applyCodes bold [StringToNumber (js "0"); num 31; num 4]
    = applyCodes emptyStyle [num 31; num 4].
Proof.
  split; [reflexivity|].
  exact (applyCodes_reset_first _ (StringToNumber (js "0")) [num 31; num 4]
           eq_refl).
Defined.

Lemma parseAnsi_unterminated_witness :
(LOWER_M ∉ js "1;31")
  ∧ parseAnsi StringToNumber (js "ab" ++ ESC :: LBRACKET :: js "1;31")
    = parseAnsi StringToNumber (js "ab").
Proof.
  split; [by apply LOWER_M_not_in|].
  apply (parseAnsi_unterminated StringToNumber (js "ab") (js "1;31")).
  by apply LOWER_M_not_in.
Defined.


(** Between them the two kinds account for every line: the texts of its
    segments are the line up to the first introducer without terminator,
    escape sequences removed. *)
Lemma parseAnsi_texts_of_any_line Number (line : jsstring) :
  (exists plain, Stripped line plain ∧ texts (parseAnsi Number line) = plain)
  ∨ (exists prefix body plain,
       line = prefix ++ ESC :: LBRACKET :: body
       ∧ (LOWER_M ∉ body) ∧ Stripped prefix plain
       ∧ texts (parseAnsi Number line) = plain).
Proof.
  destruct (line_stripped_or_unterminated line)
    as [(plain & Hline)|(prefix & body & plain & -> & Hbody & Hprefix)].
  - left. exists plain. split; [done|]. unfold parseAnsi.
    rewrite finish_texts, (parseLoop_stripped _ line line plain) by done.
    done.
  - right. exists prefix, body, plain. split_and!; try done.
    unfold parseAnsi.
    rewrite (parseLoop_unterminated Number prefix body Hbody _ initial eq_refl)
      by (simpl; lia).
    rewrite finish_texts, (parseLoop_stripped _ prefix prefix plain) by done.
    done.
Qed.

(** Lines the specification's edge cases name. *)
Example consecutive_escapes_no_empty_segment :
  parseAnsi StringToNumber (ESC :: js "[1m" ++ ESC :: js "[31mX")
  = [ {| text := js "X";
         style := {| fontWeight := true; fontStyle := false;
                     textDecoration := false;
                     color := Some (js "#d16969");
                     backgroundColor := None |} |} ].
Proof. reflexivity. Qed.

Example empty_code_body_resets :
  parseAnsi StringToNumber (ESC :: js "[1mA" ++ ESC :: js "[mB")
  = [ {| text := js "A";
         style := {| fontWeight := true; fontStyle := false;
                     textDecoration := false; color := None;
                     backgroundColor := None |} |};
      {| text := js "B"; style := emptyStyle |} ].
Proof. reflexivity. Qed.

Example unterminated_drops_the_rest :
  parseAnsi StringToNumber (js "ab" ++ ESC :: js "[31 and the rest")
  = [ {| text := js "ab"; style := emptyStyle |} ].
Proof. reflexivity. Qed.

End AnsiParserFacts.

(** ** The two parsers side by side *)
Module ParserAgreement.

Import AnsiParser AnsiParserFacts.

(** Two styles with the same bold, italic and underline flags; two segments
    with the same text and such styles. *)
Definition sameFlags (a b : SpanStyle) : Prop :=
  fontWeight a = fontWeight b
  ∧ fontStyle a = fontStyle b
  ∧ textDecoration a = textDecoration b.

Definition sameTextAndFlags (a b : Span) : Prop :=
  text a = text b ∧ sameFlags (style a) (style b).

(** The loop variables of the two parsers, in step. *)
Definition inStep (s t : LoopState) : Prop :=
  Forall2 sameTextAndFlags (result s) (result t)
  ∧ sameTextAndFlags (currentSpan s) (currentSpan t)
  ∧ position s = position t.

Lemma themed_collectCode_step input code position :
  ThemedAnsiParser.collectCode input code position =
  if decide (position < length input) then
    if decide (input !! position = Some LOWER_M) then (code, position)
    else ThemedAnsiParser.collectCode input (append_indexed code (input !! position))
                     (position + 1)
  else (code, position).
Proof.
  funelim (ThemedAnsiParser.collectCode input code position);
    simp collectCode;
    repeat case_decide; try done; try lia.
  all: rewrite Heq0; simpl; try rewrite Heq; simpl; done.
Qed.

Lemma themed_parseLoop_step Number NumberToString input s :
  ThemedAnsiParser.parseLoop Number NumberToString input s =
  if decide (position s < length input)
  then ThemedAnsiParser.parseLoop Number NumberToString input
         (ThemedAnsiParser.loopBody Number NumberToString input s)
  else s.
Proof.
  funelim (ThemedAnsiParser.parseLoop Number NumberToString input s);
    simp parseLoop;
    rewrite Heq; simpl; case_decide; done || lia.
Qed.

Section Agreement.

Variable Number : jsstring -> jsnum.
Variable NumberToString : jsnum -> jsstring.

Lemma applyCode_sameFlags a b code :
  sameFlags a b ->
  sameFlags (applyCode a code) (ThemedAnsiParser.applyCode NumberToString b code).
Proof.
  intros (Hw & Hs & Hd). unfold applyCode, ThemedAnsiParser.applyCode, sameFlags.
  repeat (case_match; simpl; try done).
Qed.

Lemma applyCodes_sameFlags codes : forall a b,
  sameFlags a b ->
  sameFlags (applyCodes a codes) (ThemedAnsiParser.applyCodes NumberToString b codes).
Proof.
  induction codes as [|code codes IH]; intros a b Hab; [done|].
  apply IH, applyCode_sameFlags, Hab.
Qed.

Lemma collectCode_agrees input : forall n code position,
  length input - position = n ->
  ThemedAnsiParser.collectCode input code position = collectCode input code position.
Proof.
  intros n. induction (lt_wf n) as [n _ IH]. intros code position Hn.
  rewrite themed_collectCode_step, collectCode_step.
  repeat case_decide; try done.
  eapply IH; [|reflexivity]. lia.
Qed.

Lemma flush_inStep s t : inStep s t -> inStep (flush s) (ThemedAnsiParser.flush t).
Proof.
  intros (Hres & Hcur & Hpos). unfold flush, ThemedAnsiParser.flush.
  pose proof Hcur as [Htext Hstyle]. rewrite <- Htext.
  case_decide; [done|].
  split_and!; simpl; [|done..].
  apply Forall2_app; [done|]. by constructor.
Qed.

Lemma loopBody_inStep input s t :
  inStep s t ->
  inStep (loopBody Number input s)
         (ThemedAnsiParser.loopBody Number NumberToString input t).
Proof.
  intros Hst. unfold loopBody, ThemedAnsiParser.loopBody.
  change (ThemedAnsiParser.atIntroducer input (position t))
    with (atIntroducer input (position t)).
  pose proof Hst as (Hres & [Htext Hstyle] & Hpos). rewrite <- Hpos.
  destruct (atIntroducer input (position s)).
  - unfold escapeSequence, ThemedAnsiParser.escapeSequence.
    pose proof (flush_inStep s t Hst) as (Hres' & [Htext' Hstyle'] & Hpos').
    rewrite <- Hpos', (collectCode_agrees input _ _ _ eq_refl).
    destruct (collectCode input [] (position (flush s) + 2)) as [code p].
    split_and!; simpl; try done.
    split; simpl; [done|]. by apply applyCodes_sameFlags.
  - unfold plainCharacter, ThemedAnsiParser.plainCharacter.
    split_and!; simpl; [done| |lia].
    split; simpl; [congruence|done].
Qed.

Lemma parseLoop_inStep input : forall n s t,
  length input - position s = n ->
  inStep s t ->
  inStep (parseLoop Number input s)
         (ThemedAnsiParser.parseLoop Number NumberToString input t).
Proof.
  intros n. induction (lt_wf n) as [n _ IH]. intros s t Hn Hst.
  rewrite parseLoop_step, themed_parseLoop_step.
  pose proof Hst as (_ & _ & Hpos). rewrite <- Hpos.
  case_decide; [|done].
  pose proof (loopBody_advances Number input s).
  eapply IH; [|reflexivity|by apply loopBody_inStep]. lia.
Qed.

(** C10: on every line the two implementations of [parseAnsi] return lists
    of the same length whose segments have, position by position, the same
    text and the same bold, italic and underline flags; only the colour
    values can differ. *)
Theorem parseAnsi_variants_agree (input : jsstring) :
  Forall2 sameTextAndFlags
    (parseAnsi Number input)
    (ThemedAnsiParser.parseAnsi Number NumberToString input)
  ∧ length (parseAnsi Number input)
    = length (ThemedAnsiParser.parseAnsi Number NumberToString input).
Proof.
  assert (Forall2 sameTextAndFlags (parseAnsi Number input)
            (ThemedAnsiParser.parseAnsi Number NumberToString input)) as Hall.
  { unfold parseAnsi, ThemedAnsiParser.parseAnsi, finish, ThemedAnsiParser.finish.
    pose proof (parseLoop_inStep input _ initial ThemedAnsiParser.initial eq_refl)
      as (Hres & Hcur & _).
    { split_and!; simpl; done || by constructor. }
    pose proof Hcur as [Htext _]. rewrite <- Htext.
    case_decide; [done|].
    apply Forall2_app; [done|]. by constructor. }
  split; [done|]. by eapply Forall2_length.
Qed.

End Agreement.

(** The colours do differ: the same code gives a palette entry in one
    parser and a CSS variable in the other. *)
Example colours_differ (NumberToString : jsnum -> jsstring) :
  color (applyCode emptyStyle (num 31)) = Some (js "#d16969")
  ∧ color (ThemedAnsiParser.applyCode NumberToString emptyStyle (num 31))
    = Some (js "var(--ansi-" ++ NumberToString (Fin (31 - 30)) ++ js ")").
Proof. split; reflexivity. Qed.

End ParserAgreement.

(** ** Properties of the console session *)
Module ConsoleFacts.

Import Console.

(** The wire envelope of the specification: a JSON object
    [{ "event": "<event-name>", "data": <payload> }], an event name being a
    string. A frame is malformed when [JSON.parse] rejects it or returns
    anything else. *)
Definition isEnvelope (v : JsValue) : bool :=
  match v with
  | JObj fields =>
      match field fields (js "event"), field fields (js "data") with
      | Some (JStr _), Some _ => true
      | _, _ => false
      end
  | _ => false
  end.

Definition malformed (frame : Frame) : bool :=
  match frame with
  | Unparseable => true
  | Json v => negb (isEnvelope v)
  end.

(** The history an [auth_success] frame carries as its [logs], when the
    frame is one and [logs] is an array. *)
Definition replayedLogs (frame : Frame) : option (list JsValue) :=
  match frame with
  | Json (JObj fields) =>
      if isString (default JUndefined (field fields (js "event")))
                  (js "auth_success")
      then match field fields (js "data") with
           | Some (JObj payload) =>
               match field payload (js "logs") with
               | Some (JArr items) => Some items
               | _ => None
               end
           | _ => None
           end
      else None
  | _ => None
  end.

(** The log is as it was, with at most one line more at its end. *)
Definition extends (before after : list JsValue) : Prop :=
  exists extra, after = before ++ extra ∧ length extra <= 1.


(** A frame with the given event name and payload. *)
Definition frame_of (event : string) (payload : list (jsstring * JsValue))
  : Frame :=
  Json (JObj [ (js "event", JStr (js event)); (js "data", JObj payload) ]).

(** *** Inbound frames *)

Ltac run_handler :=
  unfold onmessage, data_of, get, JSON_parse, when, bind, lift, ret, throw;
  simpl.

(** The five event names [ws.onmessage] has a case for. *)
Definition knownEvent (name : jsstring) : bool :=
  bool_decide (name ∈ [ js "console_output"; js "auth_success"; js "stats";
                        js "power_status"; js "error" ]).

(** How the handler ends on a malformed frame, as the corrected claim says
    it: with the [SyntaxError] of [JSON.parse]; with a [TypeError] when
    the value parsed is [null] (or [undefined]), or an object with one of
    the five event names and no [data]; and normally in every other case. *)
Definition malformedOutcome (frame : Frame) : Completion unit :=
  match frame with
  | Unparseable => Throw SyntaxError
  | Json JUndefined | Json JNull => Throw TypeError
  | Json (JObj fields) =>
      match field fields (js "event"), field fields (js "data") with
      | Some (JStr name), None =>
          if knownEvent name then Throw TypeError else Normal ()
      | _, _ => Normal ()
      end
  | Json _ => Normal ()
  end.

(** C2, as the code has it: a frame that is not a wire envelope leaves the
    page as it was (log lines, statistics, server state, error, pending
    power action and all the rest), and the handler ends as
    [malformedOutcome] says: some of these frames make it throw, the
    others it ignores. *)
Theorem malformed_frame_leaves_state NumberToString frame (w : World) :
  malformed frame = true ->
  onmessage NumberToString frame w = (malformedOutcome frame, w).
Proof.
  intros Hbad. destruct frame as [|v]; [reflexivity|].
  destruct v as [| | | | | |fields]; try reflexivity.
  simpl in Hbad. unfold malformedOutcome. run_handler.
  destruct (field fields (js "event")) as [[| | | |name| |]|] eqn:Hevent;
    try reflexivity.
  destruct (field fields (js "data")) as [payload|] eqn:Hdata; [done|].
  simpl. unfold knownEvent.
  destruct (decide (name = js "console_output")) as [->|?]; [reflexivity|].
  destruct (decide (name = js "auth_success")) as [->|?]; [reflexivity|].
  destruct (decide (name = js "stats")) as [->|?]; [reflexivity|].
  destruct (decide (name = js "power_status")) as [->|?]; [reflexivity|].
  destruct (decide (name = js "error")) as [->|?]; [reflexivity|].
  rewrite (bool_decide_eq_false_2 (name ∈ _))
    by (rewrite !elem_of_cons, elem_of_nil; intuition).
  unfold isString. by rewrite !bool_decide_eq_false_2.
Qed.

Lemma extends_same l : extends l l.
Proof. exists []. rewrite app_nil_r. simpl. auto. Qed.

Lemma extends_one l x : extends l (l ++ [x]).
Proof. exists [x]. simpl. auto. Qed.

Lemma isString_other name literal :
  name ≠ literal -> isString (JStr name) literal = false.
Proof. intros Hne. simpl. by apply bool_decide_eq_false. Qed.

Lemma isString_same literal : isString (JStr literal) literal = true.
Proof. simpl. by apply bool_decide_eq_true. Qed.

Lemma isString_not_string v literal :
  (forall s, v ≠ JStr s) -> isString v literal = false.
Proof. intros Hv. destruct v; try done. by destruct (Hv s). Qed.

#[local] Arguments isString : simpl never.

(** One more case of what a frame holds. *)
Ltac frame_case :=
  match goal with
  | |- context [field ?f ?k] => destruct (field f k) eqn:?
  | |- context [getProperty ?v _] => is_var v; destruct v
  | |- context [truthy ?v] => destruct (truthy v) eqn:?
  | |- context [ToString ?N ?v] => destruct (ToString N v) eqn:?
  | |- context [match ?v with JUndefined => _ | _ => _ end] =>
      is_var v; destruct v
  | |- context [if ?b then _ else _] => destruct b eqn:?
  end; unfold setMessages_line, map_completion, toString_method, or_else;
  simpl.

(** The five event names, and any other. *)
Ltac event_cases name :=
  destruct (decide (name = js "console_output")) as [->|?];
  [|destruct (decide (name = js "auth_success")) as [->|?];
    [|destruct (decide (name = js "stats")) as [->|?];
      [|destruct (decide (name = js "power_status")) as [->|?];
        [|destruct (decide (name = js "error")) as [->|?]]]]];
  rewrite ?isString_same, ?isString_other by done.

(** What one frame does to the log: it replaces it by the replayed history,
    or leaves what was there in place and adds at most one line after it. *)
Lemma onmessage_log NumberToString frame (w : World) :
  match replayedLogs frame with
  | Some items =>
      messages (session (onmessage NumberToString frame w).2) = items
  | None =>
      extends (messages (session w))
              (messages (session (onmessage NumberToString frame w).2))
  end.
Proof.
  destruct frame as [|[| | | | | |fields]]; try apply extends_same.
  unfold replayedLogs. run_handler.
  destruct (field fields (js "event")) as [event|]; simpl;
    [|apply extends_same].
  destruct event as [| | | |name| |];
    try (rewrite !isString_not_string by done; apply extends_same).
  event_cases name.
  - repeat (frame_case; try apply extends_same; try apply extends_one).
  - destruct (field fields (js "data")) as [[| | | | | |payload]|]; simpl;
      try apply extends_same.
    destruct (field payload (js "logs")) as [[| | | | |items|]|]; simpl;
      try apply extends_same; try done.
    all: repeat (frame_case; try apply extends_same).
  - repeat (frame_case; try apply extends_same; try apply extends_one).
  - repeat (frame_case; try apply extends_same; try apply extends_one).
  - repeat (frame_case; try apply extends_same; try apply extends_one).
  - apply extends_same.
Qed.

Lemma dispatch_snoc NumberToString frames frame (w : World) :
  dispatch NumberToString (frames ++ [frame]) w
  = (onmessage NumberToString frame (dispatch NumberToString frames w)).2.
Proof. unfold dispatch. by rewrite foldl_app. Qed.

(** C6: whatever has been dispatched before, a frame either is an
    [auth_success] with a [logs] array, and the log becomes that array, or
    leaves every line of the log in place and adds at most one after them;
    so over a sequence of frames without such an [auth_success] the log
    only grows at its end. *)
Theorem log_append_only_but_for_replay NumberToString :
  (forall (before : list Frame) (frame : Frame) (w : World),
     let reached := dispatch NumberToString before w in
     match replayedLogs frame with
     | Some items =>
         messages (session (onmessage NumberToString frame reached).2) = items
     | None =>
         extends (messages (session reached))
                 (messages (session (onmessage NumberToString frame reached).2))
     end)
  ∧ (forall (frames : list Frame) (w : World),
       Forall (fun frame => replayedLogs frame = None) frames ->
       messages (session w)
         `prefix_of` messages (session (dispatch NumberToString frames w))).
Proof.
  split; [intros; apply onmessage_log|].
  intros frames w. induction frames as [|frame frames IH] using rev_ind;
    intros Hnone; [done|].
  apply Forall_app in Hnone as [Hframes [Hframe _]%Forall_cons].
  rewrite dispatch_snoc.
  pose proof (onmessage_log NumberToString frame
                (dispatch NumberToString frames w)) as Hstep.
  rewrite Hframe in Hstep. destruct Hstep as (extra & -> & _).
  by apply prefix_app_r, IH.
Qed.

Lemma log_append_only_but_for_replay_witness :
  let frames :=
    [ frame_of "console_output" [ (js "message", JStr (js "Done (3.2s)!")) ];
      frame_of "stats" [ (js "cpu_percent", JNum (num 12)) ];
      frame_of "power_status" [ (js "status", JStr (js "running")) ];
      frame_of "error" [];
      frame_of "future_event" [];
      Unparseable ] in
  Forall (fun frame => replayedLogs frame = None) frames
  ∧ messages (session (openPage "running"))
      `prefix_of` messages (session (dispatch sampleNumberToString frames
                                       (openPage "running"))).
Proof.
  intros frames.
  assert (Forall (fun frame => replayedLogs frame = None) frames) as Hnone.
  { repeat constructor. }
  split; [exact Hnone|].
  exact (proj2 (log_append_only_but_for_replay sampleNumberToString)
           frames (openPage "running") Hnone).
Defined.

(** The statistics scenario of the specification. *)
Example stats_replace_the_snapshot :
  liveStats (session
    (dispatch sampleNumberToString
       [ frame_of "stats"
           [ (js "cpu_percent", JNum (Fin (25 # 2)));
             (js "memory", JObj [ (js "used", JNum (num 100));
                                  (js "limit", JNum (num 200));
                                  (js "percent", JNum (num 50)) ]);
             (js "network", JObj [ (js "rx_bytes", JNum (num 10));
                                   (js "tx_bytes", JNum (num 20)) ]) ] ]
       (openPage "running")))
  = {| cpuPercent := JNum (Fin (25 # 2));
       memory := JObj [ (js "used", JNum (num 100));
                        (js "limit", JNum (num 200));
                        (js "percent", JNum (num 50)) ];
       network_rxBytes := JNum (num 10);
       network_txBytes := JNum (num 20) |}.
Proof. reflexivity. Qed.

(** A [status] that cannot be turned into a string: the handler returns,
    the update of the log fails. *)
Example status_null_fails_the_render :
  let after :=
    onmessage sampleNumberToString
      (frame_of "power_status" [ (js "status", JNull) ])
      (openPage "running") in
  after.1 = Normal ()
  ∧ renderError after.2 = Some TypeError
  ∧ messages (session after.2) = [].
Proof. by repeat split. Qed.

Example replay_replaces_the_log :
  messages (session
    (dispatch sampleNumberToString
       [ frame_of "console_output" [ (js "message", JStr (js "old line")) ];
         frame_of "auth_success"
           [ (js "logs", JArr [JStr (js "first"); JStr (js "second")]) ];
         frame_of "power_status" [ (js "status", JStr (js "running")) ] ]
       (openPage "running")))
  = [JStr (js "first"); JStr (js "second"); JStr (js "running")].
Proof. reflexivity. Qed.

(** C2 fails on the code where it says that no exception escapes the
    handler: the [SyntaxError] of [JSON.parse], and the [TypeError] of
    reading a property of [null] or of a missing [data], are not caught. *)
Lemma malformed_frame_throws :
  let unparseable := Unparseable in
  let null := Json JNull in
  let no_data := Json (JObj [ (js "event", JStr (js "console_output")) ]) in
  malformed unparseable = true ∧ malformed null = true
  ∧ malformed no_data = true
  ∧ forall NumberToString (w : World),
      (onmessage NumberToString unparseable w).1 = Throw SyntaxError
      ∧ (onmessage NumberToString null w).1 = Throw TypeError
      ∧ (onmessage NumberToString no_data w).1 = Throw TypeError.
Proof. by repeat split. Qed.

(** *** Power actions *)

Section Power.

Variable ExnMessage : Exn -> jsstring.





End Power.



(** *** Closing the page *)

Lemma readyStateOf_updateSocket h f (w : World) ws :
  sockets w !! h = Some ws ->
  sockets (updateSocket h f w) !! h = Some (f ws).
Proof.
  intros Hws. unfold updateSocket. simpl. rewrite Hws.
  apply list_lookup_insert_eq. by eapply lookup_lt_Some.
Qed.

Lemma length_updateSocket h f (w : World) :
  length (sockets (updateSocket h f w)) = length (sockets w).
Proof.
  unfold updateSocket. simpl. case_match; [|done]. by rewrite length_insert.
Qed.

Lemma run_cons NumberToString ExnMessage e events (w : World) :
  run NumberToString ExnMessage (e :: events) w
  = run NumberToString ExnMessage events
      (step NumberToString ExnMessage e w).2.
Proof. reflexivity. Qed.

Lemma run_nil NumberToString ExnMessage (w : World) :
  run NumberToString ExnMessage [] w = w.
Proof. reflexivity. Qed.

(** The three steps, each from any state of the page. *)
Lemma cleanup_closes NumberToString ExnMessage (w : World) h :
  wsRef (session w) = Some h ->
  readyStateOf h w = Some OPEN ->
  (step NumberToString ExnMessage Unmount w).2
  = updateSocket h (withReadyState CLOSING) w.
Proof.
  intros Href Hready. simpl. unfold cleanup, bind, read, ws_close. simpl.
  by rewrite Href, Hready.
Qed.

Lemma close_event_schedules NumberToString ExnMessage (w : World) h ws :
  sockets w !! h = Some ws ->
  readyState ws ≠ CLOSED ->
  (step NumberToString ExnMessage (SocketClose h) w).2
  = (onclose (serverData ws) (updateSocket h (withReadyState CLOSED) w)).2.
Proof.
  intros Hws Hstate. unfold step, bind, read, modify. simpl. rewrite Hws.
  destruct (readyState ws); try done; simpl; by rewrite Hws.
Qed.

Lemma timeout_reconnects NumberToString ExnMessage (w : World) h i data :
  timers w !! i = Some data ->
  wsRef (session w) = Some h ->
  readyStateOf h w = Some CLOSED ->
  truthy (token w) = true ->
  let later := (step NumberToString ExnMessage (TimerFires i) w).2 in
  sockets later
  = sockets w ++ [ {| readyState := CONNECTING; sent := [];
                      serverData := data; socketToken := token w |} ]
  ∧ wsRef (session later) = Some (length (sockets w)).
Proof.
  intros Htimer Href Hready Htoken. unfold step, bind, read. simpl.
  rewrite Htimer. simpl.
  unfold reconnect, initWebSocket, bind, read, ws_close. simpl.
  rewrite Href. unfold readyStateOf in *. simpl.
  rewrite Hready. simpl. rewrite Htoken. simpl.
  rewrite Href. simpl. by rewrite Hready.
Qed.

(** C3 fails on the code. Whenever the page holds a socket that is open and
    a token is stored: the cleanup closes the socket, the socket's [close]
    event starts the reconnect timeout as for any other close, and when
    that timeout fires [wsRef.current] is still the closed socket, so
    [initWebSocket] opens a new one. *)
Theorem reconnect_after_cleanup NumberToString ExnMessage
    (w : World) (h : nat) (ws : WebSocket) :
  wsRef (session w) = Some h ->
  sockets w !! h = Some ws ->
  readyState ws = OPEN ->
  truthy (token w) = true ->
  let closed := run NumberToString ExnMessage [Unmount; SocketClose h] w in
  let later :=
    run NumberToString ExnMessage [TimerFires (length (timers w))] closed in
  readyStateOf h closed = Some CLOSED
  ∧ timers closed = timers w ++ [serverData ws]
  ∧ length (sockets later) = S (length (sockets w))
  ∧ readyStateOf (length (sockets w)) later = Some CONNECTING
  ∧ wsRef (session later) = Some (length (sockets w)).
Proof.
  intros Href Hws Hopen Htoken closed later.
  assert (readyStateOf h w = Some OPEN) as Hready.
  { unfold readyStateOf. by rewrite Hws, <- Hopen. }
  pose proof (cleanup_closes NumberToString ExnMessage w h Href Hready)
    as Hcleanup.
  remember (updateSocket h (withReadyState CLOSING) w) as closing
    eqn:Hclosing.
  assert (sockets closing !! h = Some (withReadyState CLOSING ws)) as Hlook.
  { subst closing. by apply readyStateOf_updateSocket. }
  pose proof (close_event_schedules NumberToString ExnMessage closing h _
                Hlook ltac:(done)) as Hevent.
  remember (updateSocket h (withReadyState CLOSED) closing) as shut
    eqn:Hshut.
  assert (closed = (onclose (serverData ws) shut).2) as Hclosed.
  { unfold closed. by rewrite !run_cons, run_nil, Hcleanup, Hevent. }
  assert (sockets closed = sockets shut ∧ timers closed = timers w ++ [serverData ws]
          ∧ wsRef (session closed) = Some h ∧ token closed = token w)
    as (Hsockets & Htimers & Href' & Htoken').
  { rewrite Hclosed. subst shut closing. by split_and!. }
  assert (readyStateOf h closed = Some CLOSED) as Hready'.
  { unfold readyStateOf. rewrite Hsockets. subst shut.
    by erewrite readyStateOf_updateSocket. }
  assert (length (sockets closed) = length (sockets w)) as Hlength.
  { rewrite Hsockets. subst shut closing. by rewrite !length_updateSocket. }
  destruct (timeout_reconnects NumberToString ExnMessage closed h
              (length (timers w)) (serverData ws)) as [Hnew Hcurrent];
    [by rewrite Htimers, lookup_app_r, Nat.sub_diag|done|done|congruence|].
  assert (later = (step NumberToString ExnMessage
                     (TimerFires (length (timers w))) closed).2) as ->
    by done.
  split_and!; [done|done|..].
  - rewrite Hnew, length_app. simpl. lia.
  - unfold readyStateOf. rewrite Hnew, <- Hlength.
    by rewrite lookup_app_r, Nat.sub_diag.
  - by rewrite Hcurrent, Hlength.
Qed.

Lemma reconnect_after_cleanup_witness :
  let w := openPage "running" in
  let closed := sampleRun [Unmount; SocketClose 0] w in
  let later := sampleRun [TimerFires 0] closed in
  (wsRef (session w) = Some 0 ∧ readyStateOf 0 w = Some OPEN
   ∧ truthy (token w) = true)
  ∧ readyState <$> sockets closed = [CLOSED]
  ∧ length (timers closed) = 1
  ∧ readyState <$> sockets later = [CLOSED; CONNECTING]
  ∧ wsRef (session later) = Some 1.
Proof.
  intros w closed later.
  destruct (reconnect_after_cleanup sampleNumberToString sampleExnMessage
              w 0 _ eq_refl eq_refl eq_refl eq_refl)
    as (_ & _ & _ & _ & Href).
  split_and!; [reflexivity..|exact Href].
Defined.

(** *** Commands *)

Section Commands.

Variable ExnMessage : Exn -> jsstring.






End Commands.



Lemma malformed_frame_leaves_state_witness :
  let no_data := Json (JObj [ (js "event", JStr (js "power_status")) ]) in
  let number := Json (JNum (num 7)) in
  (malformed no_data = true ∧ malformed number = true)
  ∧ onmessage sampleNumberToString no_data (openPage "running")
    = (Throw TypeError, openPage "running")
  ∧ onmessage sampleNumberToString number (openPage "running")
    = (Normal (), openPage "running").
Proof.
  intros no_data number. split; [by split|]. split.
  - exact (malformed_frame_leaves_state sampleNumberToString no_data
             (openPage "running") eq_refl).
  - exact (malformed_frame_leaves_state sampleNumberToString number
             (openPage "running") eq_refl).
Defined.

End ConsoleFacts.

(** ** More on the formatter *)
Module AnsiParserProperties.

Import AnsiParser AnsiParserFacts.

(** No segment with an empty text. *)
Definition allTextsFilled (spans : list Span) : Prop :=
  Forall (fun span => text span ≠ []) spans.

(** A code that sets the foreground, and one that sets the background. *)
Definition isForeground (code : jsnum) : bool :=
  (num_ge code 30 && num_le code 37) || (num_ge code 90 && num_le code 97).

Definition isBackground (code : jsnum) : bool :=
  (num_ge code 40 && num_le code 47) || (num_ge code 100 && num_le code 107).

Section Properties.

Variable Number : jsstring -> jsnum.

(** *** Runs of plain characters and whole escape sequences *)

Lemma parseLoop_plain_run input run : forall rest s,
  ESC ∉ run ->
  drop (position s) input = run ++ rest ->
  parseLoop Number input s
  = parseLoop Number input
      {| result := result s;
         currentSpan := {| text := text (currentSpan s) ++ run;
                           style := style (currentSpan s) |};
         position := position s + length run |}.
Proof.
  induction run as [|c run IH]; intros rest s Hesc Hdrop.
  - destruct s as [r [t st] p]. simpl. by rewrite app_nil_r, Nat.add_0_r.
  - apply not_elem_of_cons in Hesc as [Hc Hrun]. simpl in Hdrop.
    pose proof (atIntroducer_drop _ _ _ _ Hdrop) as Hintro.
    apply drop_cons_inv in Hdrop as (Hlook & Hdrop & Hlt).
    rewrite parseLoop_step, decide_True by done.
    unfold loopBody. rewrite Hintro, bool_decide_eq_false_2 by done. simpl.
    unfold plainCharacter. rewrite Hlook. simpl.
    rewrite (IH rest); [|done|by simpl; rewrite Nat.add_1_r].
    simpl. rewrite <- app_assoc. simpl. do 2 f_equal. lia.
Qed.

Lemma parseLoop_escape input body rest s :
  LOWER_M ∉ body ->
  drop (position s) input = ESC :: LBRACKET :: body ++ LOWER_M :: rest ->
  parseLoop Number input s
  = parseLoop Number input
      {| result := result (flush s);
         currentSpan :=
           {| text := text (currentSpan (flush s));
              style := applyCodes (style (currentSpan (flush s)))
                         (map Number (split SEMICOLON body)) |};
         position := position s + length body + 3 |}.
Proof.
  intros Hbody Hdrop.
  pose proof (atIntroducer_drop _ _ _ _ Hdrop) as Hintro.
  pose proof (drop_cons_inv _ _ _ _ Hdrop) as (_ & _ & Hlt).
  rewrite parseLoop_step, decide_True by done.
  unfold loopBody. rewrite Hintro. simpl.
  unfold escapeSequence. rewrite flush_position.
  change (ESC :: LBRACKET :: body ++ LOWER_M :: rest)
    with ([ESC; LBRACKET] ++ body ++ LOWER_M :: rest) in Hdrop.
  apply drop_app_inv in Hdrop. simpl in Hdrop.
  rewrite (collectCode_body _ _ _ _ _ Hdrop Hbody (or_intror eq_refl)).
  simpl. do 2 f_equal. lia.
Qed.

(** *** No empty segment *)

Lemma flush_filled s :
  allTextsFilled (result s) -> allTextsFilled (result (flush s)).
Proof.
  intros Hs. unfold flush. case_decide; [done|]. simpl.
  apply Forall_app. split; [done|]. by constructor.
Qed.

Lemma loopBody_filled input s :
  allTextsFilled (result s) ->
  allTextsFilled (result (loopBody Number input s)).
Proof.
  intros Hs. unfold loopBody, escapeSequence, plainCharacter.
  destruct (atIntroducer _ _); [|done].
  destruct (collectCode _ _ _). simpl. by apply flush_filled.
Qed.

Lemma parseLoop_filled input : forall n s,
  length input - position s = n ->
  allTextsFilled (result s) ->
  allTextsFilled (result (parseLoop Number input s)).
Proof.
  intros n. induction (lt_wf n) as [n _ IH]. intros s Hn Hs.
  rewrite parseLoop_step. case_decide; [|done].
  pose proof (loopBody_advances Number input s).
  eapply IH; [|reflexivity|by apply loopBody_filled]. lia.
Qed.

(** X1: whatever the line, [parseAnsi] returns no segment with an empty
    text: escape sequences that follow one another, or that open or end
    the line, leave no trace among the segments. *)
Theorem parseAnsi_no_empty_segment (input : jsstring) :
  allTextsFilled (parseAnsi Number input).
Proof.
  unfold parseAnsi, finish.
  pose proof (parseLoop_filled input _ initial eq_refl) as Hloop.
  case_decide as Htext; [apply Hloop; constructor|].
  apply Forall_app. split; [apply Hloop; constructor|]. by constructor.
Qed.

(** *** Lines without escape sequences *)

(** X2: a line without the [ESC] character comes back whole, as one
    segment in the default style; the empty line gives no segment. *)
Theorem parseAnsi_plain_line (line : jsstring) :
  ESC ∉ line ->
  parseAnsi Number line
  = if decide (line = []) then []
    else [ {| text := line; style := emptyStyle |} ].
Proof.
  intros Hesc. unfold parseAnsi.
  rewrite (parseLoop_plain_run line line [] initial Hesc)
    by (simpl; by rewrite app_nil_r).
  rewrite parseLoop_past_end by (simpl; lia).
  unfold finish. simpl. by repeat case_decide.
Qed.

(** *** What a code does to each field *)

Lemma style_eq (a b : SpanStyle) :
  fontWeight a = fontWeight b ->
  fontStyle a = fontStyle b ->
  textDecoration a = textDecoration b ->
  color a = color b ->
  backgroundColor a = backgroundColor b ->
  a = b.
Proof. destruct a, b. simpl. congruence. Qed.

(** A field that every code leaves or sets to a value of its own. *)
Definition leftOrSet {X} (field : SpanStyle -> X) : Prop :=
  forall code,
    (forall st, field (applyCode st code) = field st)
    ∨ (exists value, forall st, field (applyCode st code) = value).

Ltac left_or_set :=
  intros code; unfold applyCode;
  repeat case_match; simpl;
  first [ by left | right; eexists; intros; reflexivity ].

Lemma fontWeight_leftOrSet : leftOrSet fontWeight.
Proof. left_or_set. Qed.

Lemma fontStyle_leftOrSet : leftOrSet fontStyle.
Proof. left_or_set. Qed.

Lemma textDecoration_leftOrSet : leftOrSet textDecoration.
Proof. left_or_set. Qed.

Lemma color_leftOrSet : leftOrSet color.
Proof. left_or_set. Qed.

Lemma backgroundColor_leftOrSet : leftOrSet backgroundColor.
Proof. left_or_set. Qed.

Lemma leftOrSet_codes {X} (field : SpanStyle -> X) :
  leftOrSet field ->
  forall codes,
    (forall st, field (applyCodes st codes) = field st)
    ∨ (exists value, forall st, field (applyCodes st codes) = value).
Proof.
  intros Hfield codes. induction codes as [|code codes IH]; [by left|].
  unfold applyCodes in *. simpl.
  destruct IH as [Hkeep|[value Hset]].
  - destruct (Hfield code) as [Hkeep'|[value Hset']].
    + left. intros st. by rewrite Hkeep, Hkeep'.
    + right. exists value. intros st. by rewrite Hkeep, Hset'.
  - right. exists value. intros st. apply Hset.
Qed.

Lemma leftOrSet_twice {X} (field : SpanStyle -> X) codes st :
  leftOrSet field ->
  field (applyCodes (applyCodes st codes) codes)
  = field (applyCodes st codes).
Proof.
  intros Hfield.
  destruct (leftOrSet_codes field Hfield codes) as [Hkeep|[value Hset]].
  - by rewrite Hkeep.
  - by rewrite !Hset.
Qed.

(** X3: applying the codes of an escape sequence a second time changes
    nothing: a repeated escape sequence is harmless. *)
Theorem applyCodes_twice (st : SpanStyle) (codes : list jsnum) :
  applyCodes (applyCodes st codes) codes = applyCodes st codes.
Proof.
  apply style_eq; apply leftOrSet_twice.
  - apply fontWeight_leftOrSet.
  - apply fontStyle_leftOrSet.
  - apply textDecoration_leftOrSet.
  - apply color_leftOrSet.
  - apply backgroundColor_leftOrSet.
Qed.

(** X4: two codes, neither of them the reset, that do not both set the
    foreground nor both set the background can come in either order. *)
Theorem applyCode_order (st : SpanStyle) (a b : jsnum) :
  num_eq a 0 = false ->
  num_eq b 0 = false ->
  isForeground a && isForeground b = false ->
  isBackground a && isBackground b = false ->
  applyCode (applyCode st a) b = applyCode (applyCode st b) a.
Proof.
  unfold isForeground, isBackground, applyCode.
  intros Ha Hb Hfg Hbg. rewrite Ha, Hb.
  repeat match goal with
         | |- context [if ?c then _ else _] =>
             let E := fresh "E" in
             destruct c eqn:E; rewrite ?E in Hfg, Hbg; simpl in *;
             rewrite ?orb_true_r in Hfg, Hbg; try done
         end.
Qed.

(** *** The lines the console writes itself *)

Lemma ESC_not_in (body : jsstring) :
  bool_decide (ESC ∉ body) = true -> ESC ∉ body.
Proof. apply bool_decide_eq_true_1. Defined.

(** X5: the line [sendCommand] echoes, for a command without [ESC], is
    shown as two segments: ["$ "] in the green of the palette, then the
    command in the default style. What is used of [Number] is its value on
    ["32"] and ["0"]. *)
Theorem echoLine_segments (command : jsstring) :
  Number (js "32") = num 32 ->
  Number (js "0") = num 0 ->
  ESC ∉ command ->
  command ≠ [] ->
  parseAnsi Number (Console.echoLine command)
  = [ {| text := js "$ ";
         style := withColor emptyStyle (Some (js "#b5cea8")) |};
      {| text := command; style := emptyStyle |} ].
Proof.
  intros H32 H0 Hesc Hcommand.
  unfold parseAnsi.
  remember (Console.echoLine command) as input eqn:Hinput.
  assert (input = ESC :: LBRACKET :: js "32" ++ LOWER_M ::
                    (js "$ " ++ ESC :: LBRACKET :: js "0" ++ LOWER_M ::
                       (command ++ ESC :: LBRACKET :: js "0" ++ [LOWER_M])))
    as Hshape by (subst input; reflexivity).
  assert (length input = 15 + length command) as Hlength.
  { rewrite Hshape. simpl. rewrite length_app. simpl. lia. }
  rewrite (parseLoop_escape input (js "32")
             (js "$ " ++ ESC :: LBRACKET :: js "0" ++ LOWER_M ::
                (command ++ ESC :: LBRACKET :: js "0" ++ [LOWER_M])) initial);
    [|by apply LOWER_M_not_in|by rewrite Hshape].
  rewrite (parseLoop_plain_run input (js "$ ")
             (ESC :: LBRACKET :: js "0" ++ LOWER_M ::
                (command ++ ESC :: LBRACKET :: js "0" ++ [LOWER_M])));
    [|by apply ESC_not_in|by rewrite Hshape].
  rewrite (parseLoop_escape input (js "0")
             (command ++ ESC :: LBRACKET :: js "0" ++ [LOWER_M]));
    [|by apply LOWER_M_not_in|by rewrite Hshape].
  rewrite (parseLoop_plain_run input command
             (ESC :: LBRACKET :: js "0" ++ [LOWER_M]));
    [|done|by rewrite Hshape].
  rewrite (parseLoop_escape input (js "0") []);
    [|by apply LOWER_M_not_in|]; last first.
  { simpl position. rewrite Hshape. simpl. by rewrite drop_app_length. }
  rewrite parseLoop_past_end by (simpl; lia).
  change (split SEMICOLON (js "32")) with [js "32"].
  change (split SEMICOLON (js "0")) with [js "0"].
  rewrite !map_cons, H32, H0.
  unfold finish, flush. simpl.
  destruct (decide (command = [])) as [?|_]; [done|].
  reflexivity.
Qed.

End Properties.

Lemma parseAnsi_plain_line_witness :
  (ESC ∉ js "Done (3.2s)!")
  ∧ parseAnsi StringToNumber (js "Done (3.2s)!")
    = [ {| text := js "Done (3.2s)!"; style := emptyStyle |} ].
Proof.
  split; [by apply ESC_not_in|].
  apply (parseAnsi_plain_line StringToNumber (js "Done (3.2s)!")).
  by apply ESC_not_in.
Defined.

Lemma applyCode_order_witness :
  num_eq (num 1) 0 = false
  ∧ num_eq (num 31) 0 = false
  ∧ isForeground (num 1) && isForeground (num 31) = false
  ∧ isBackground (num 1) && isBackground (num 31) = false
  ∧ applyCode (applyCode emptyStyle (num 1)) (num 31)
    = applyCode (applyCode emptyStyle (num 31)) (num 1).
Proof.
  split_and!; [reflexivity..|].
  exact (applyCode_order emptyStyle (num 1) (num 31)
           eq_refl eq_refl eq_refl eq_refl).
Defined.

Lemma echoLine_segments_witness :
  StringToNumber (js "32") = num 32
  ∧ StringToNumber (js "0") = num 0
  ∧ (ESC ∉ js "say hi")
  ∧ js "say hi" ≠ []
  ∧ parseAnsi StringToNumber (Console.echoLine (js "say hi"))
    = [ {| text := js "$ ";
           style := withColor emptyStyle (Some (js "#b5cea8")) |};
        {| text := js "say hi"; style := emptyStyle |} ].
Proof.
  split_and!; [reflexivity..|by apply ESC_not_in|discriminate|].
  apply (echoLine_segments StringToNumber (js "say hi") eq_refl eq_refl).
  - by apply ESC_not_in.
  - discriminate.
Defined.

End AnsiParserProperties.

(** ** More on the console session *)
Module ConsoleProperties.

Import Console.

(** *** Handlers that keep a property of the page *)

Definition preserves {A} (P : World -> Prop) (m : M A) : Prop :=
  forall w, P w -> P (m w).2.

Section Preserves.

Context {A B : Type} (P : World -> Prop).

Lemma preserves_ret (a : A) : preserves P (ret a).
Proof. by intros w Hw. Qed.

Lemma preserves_throw e : preserves P (@throw A e).
Proof. by intros w Hw. Qed.

Lemma preserves_lift c : preserves P (@lift A c).
Proof. by intros w Hw. Qed.

Lemma preserves_read f : preserves P (@read A f).
Proof. by intros w Hw. Qed.

Lemma preserves_bind (m : M A) (k : A -> M B) :
  preserves P m -> (forall a, preserves P (k a)) -> preserves P (bind m k).
Proof.
  intros Hm Hk w Hw. unfold bind. specialize (Hm w Hw).
  destruct (m w) as [[a|e] w']; [by apply Hk|done].
Qed.

Lemma preserves_try_catch (body : M A) (handler : Exn -> M A) :
  preserves P body -> (forall e, preserves P (handler e)) ->
  preserves P (try_catch body handler).
Proof.
  intros Hbody Hhandler w Hw. unfold try_catch. specialize (Hbody w Hw).
  destruct (body w) as [[a|e] w']; [done|by apply Hhandler].
Qed.

Lemma preserves_when b (m : M unit) : preserves P m -> preserves P (when b m).
Proof. intros Hm. destruct b; [done|by intros w Hw]. Qed.

End Preserves.

(** A handler taken apart, down to the setters it calls. *)
Ltac walk leaf :=
  repeat first
    [ apply preserves_ret | apply preserves_throw | apply preserves_lift
    | apply preserves_read
    | apply preserves_bind; [|intros ?; cbv beta]
    | apply preserves_when
    | apply preserves_try_catch; [|intros ?; cbv beta]
    | match goal with
      | |- preserves _ (if ?b then _ else _) => destruct b
      | |- preserves _ (match ?v with _ => _ end) => destruct v
      end
    | progress unfold get, data_of, JSON_parse, setMessages_line, onopen,
        onclose, onerror
    | leaf ].

(** *** What an inbound frame cannot touch *)

(** The connection (sockets and what they sent, reconnect timeouts, token,
    [wsRef.current], the [connected] flag), the command being typed and
    [loading]. *)
Definition sameConnection (w w' : World) : Prop :=
  sockets w' = sockets w ∧ timers w' = timers w ∧ token w' = token w
  ∧ wsRef (session w') = wsRef (session w)
  ∧ connected (session w') = connected (session w)
  ∧ command (session w') = command (session w)
  ∧ loading (session w') = loading (session w).

Lemma onmessage_sameConnection NumberToString frame (w0 : World) :
  preserves (sameConnection w0) (onmessage NumberToString frame).
Proof.
  unfold onmessage. walk ltac:(by intros w Hw).
Qed.

(** X6: a sequence of inbound frames, whatever they hold, leaves the
    connection as it is (nothing is sent, closed or scheduled) and does
    not touch what the user is typing. *)
Theorem dispatch_leaves_connection NumberToString frames (w : World) :
  sameConnection w (dispatch NumberToString frames w).
Proof.
  induction frames as [|frame frames IH] using rev_ind; [done|].
  unfold dispatch in *. rewrite foldl_app. simpl.
  by apply onmessage_sameConnection.
Qed.

(** *** One live socket *)

(** A socket that is connecting or open. *)
Definition live (ws : WebSocket) : bool :=
  match readyState ws with
  | CONNECTING | OPEN => true
  | CLOSING | CLOSED => false
  end.

(** [wsRef.current] is the socket created last, if one was created. *)
Definition currentIsLast (w : World) : Prop :=
  match wsRef (session w) with
  | Some h => S h = length (sockets w)
  | None => sockets w = []
  end.

Definition liveIsLast (w : World) : Prop :=
  forall h ws,
    sockets w !! h = Some ws -> live ws = true -> S h = length (sockets w).

Definition oneLive (w : World) : Prop := currentIsLast w ∧ liveIsLast w.

Lemma oneLive_ext (w w' : World) :
  sockets w' = sockets w ->
  wsRef (session w') = wsRef (session w) ->
  oneLive w -> oneLive w'.
Proof.
  unfold oneLive, currentIsLast, liveIsLast. by intros -> ->.
Qed.

Lemma lookup_updateSocket h f (w : World) h' ws' :
  sockets (updateSocket h f w) !! h' = Some ws' ->
  sockets w !! h' = Some ws'
  ∨ (h' = h ∧ exists ws, sockets w !! h = Some ws ∧ ws' = f ws).
Proof.
  unfold updateSocket. simpl.
  destruct (sockets w !! h) as [ws|] eqn:Hws; [|by left].
  destruct (decide (h' = h)) as [->|Hne].
  - rewrite list_lookup_insert_eq by (by eapply lookup_lt_Some).
    intros [= <-]. right. eauto.
  - rewrite list_lookup_insert_ne by done. by left.
Qed.

(** A socket that changes without coming to life. *)
Lemma oneLive_updateSocket h f (w : World) :
  (forall ws, sockets w !! h = Some ws -> live (f ws) = true -> live ws = true) ->
  oneLive w -> oneLive (updateSocket h f w).
Proof.
  intros Hf [Hcurrent Hlive]. split.
  - unfold currentIsLast in *. rewrite ConsoleFacts.length_updateSocket.
    simpl. destruct (wsRef (session w)); [done|].
    unfold updateSocket. simpl. by rewrite Hcurrent.
  - intros h' ws' Hlook Hws'. rewrite ConsoleFacts.length_updateSocket.
    apply lookup_updateSocket in Hlook as [Hlook|(-> & ws & Hlook & ->)];
      eauto.
Qed.

Lemma oneLive_ws_close h (w : World) : oneLive w -> oneLive (ws_close h w).2.
Proof.
  intros Hw. unfold ws_close.
  destruct (readyStateOf h w) as [[]|]; simpl; try done;
    by apply oneLive_updateSocket.
Qed.

Lemma not_live_after_close h (w : World) ws :
  sockets (ws_close h w).2 !! h = Some ws -> live ws = false.
Proof.
  unfold ws_close, readyStateOf.
  destruct (sockets w !! h) as [old|] eqn:Hold; [|simpl; by rewrite Hold].
  assert (h < length (sockets w)) as Hlt by (by eapply lookup_lt_Some).
  unfold live.
  simpl. destruct (readyState old) eqn:Hstate; simpl; rewrite ?Hold;
    rewrite ?list_lookup_insert_eq by done; intros [= <-]; simpl;
    by rewrite ?Hstate.
Qed.

Lemma oneLive_initWebSocket data (w : World) :
  oneLive w -> oneLive (initWebSocket data w).2.
Proof.
  intros Hw. unfold initWebSocket, bind, read. simpl.
  destruct (truthy (token w)); simpl; [|done].
  set (closed := match wsRef (session w) with
                 | Some old => ws_close old
                 | None => ret ()
                 end w).
  assert (closed.1 = Normal ()) as Hnormal.
  { subst closed. destruct (wsRef (session w)) as [old|]; [|done].
    unfold ws_close. by destruct (readyStateOf old w) as [[]|]. }
  assert (oneLive closed.2 ∧ wsRef (session closed.2) = wsRef (session w)
          ∧ forall h ws, wsRef (session w) = Some h ->
                         sockets closed.2 !! h = Some ws -> live ws = false)
    as ([Hcurrent Hlive] & Href & Hclosed).
  { subst closed. destruct (wsRef (session w)) as [old|] eqn:Hold.
    - split_and!; [by apply oneLive_ws_close| |].
      + unfold ws_close. by destruct (readyStateOf old w) as [[]|].
      + intros h ws [= <-]. apply not_live_after_close.
    - by split_and!. }
  destruct closed as [[[]|e] w']; [|done]. simpl in *.
  split.
  - unfold currentIsLast. simpl. rewrite length_app. simpl. lia.
  - intros h ws Hlook Hws. simpl in *. rewrite length_app. simpl.
    apply lookup_app_Some in Hlook as [Hlook|[Hge Hlook]].
    + exfalso. pose proof (Hlive h ws Hlook Hws) as Hlast.
      unfold currentIsLast in Hcurrent. rewrite Href in Hcurrent.
      destruct (wsRef (session w)) as [old|] eqn:Hold.
      * assert (h = old) as -> by lia.
        by rewrite (Hclosed old ws eq_refl Hlook) in Hws.
      * by rewrite Hcurrent in Hlook.
    + apply lookup_lt_Some in Hlook as Hlt. simpl in Hlt. lia.
Qed.

Section Session.

Variable NumberToString : jsnum -> jsstring.
Variable ExnMessage : Exn -> jsstring.

Lemma oneLive_wsRef_current_send frame (w : World) :
  oneLive w -> oneLive (wsRef_current_send frame w).2.
Proof.
  intros Hw. unfold wsRef_current_send, bind, read, ws_send. simpl.
  destruct (wsRef (session w)) as [h|]; [|done].
  destruct (readyStateOf h w) as [[]|]; simpl; try done.
  by apply oneLive_updateSocket.
Qed.

Lemma oneLive_step e (w : World) :
  oneLive w -> oneLive (step NumberToString ExnMessage e w).2.
Proof.
  intros Hw. destruct e as [data|h|h frame|h|h|i|text| |a| ]; unfold step.
  - unfold fetchServer, bind. simpl.
    destruct (negb _ || negb _); simpl; [done|].
    pose proof (oneLive_initWebSocket data
                  (setServer (fun _ => Some data) w).2) as Hinit.
    destruct (initWebSocket data _) as [[[]|e] w'];
      by apply Hinit, (oneLive_ext w).
  - unfold bind, read. simpl.
    destruct (readyStateOf h w) as [[]|] eqn:Hready; simpl; try done.
    apply (oneLive_ext (updateSocket h (withReadyState OPEN) w)); [done..|].
    apply oneLive_updateSocket; [|done].
    intros ws Hws _. unfold readyStateOf in Hready. rewrite Hws in Hready.
    unfold live. simpl in Hready. injection Hready as Hready.
    by rewrite Hready.
  - unfold bind, read. simpl.
    destruct (readyStateOf h w) as [[]|]; simpl; try done.
    all: destruct (onmessage_sameConnection NumberToString frame w w)
           as (Hsockets & _ & _ & Href & _); [done|];
      by apply (oneLive_ext w).
  - unfold bind, read. simpl. by destruct (readyStateOf h w).
  - unfold bind, read. simpl.
    destruct (sockets w !! h) as [ws|] eqn:Hws; simpl; [|done].
    destruct (readyState ws) eqn:Hstate; simpl; try done.
    all: apply (oneLive_ext (updateSocket h (withReadyState CLOSED) w));
      [done..|]; by apply oneLive_updateSocket.
  - unfold bind, read. simpl.
    destruct (timers w !! i) as [data|]; simpl; [|done].
    unfold reconnect, bind, read. simpl.
    set (w' := {| session := session w; sockets := sockets w;
                  timers := delete i (timers w); token := token w;
                  renderError := renderError w |}).
    assert (oneLive w') as Hw' by (by apply (oneLive_ext w)).
    destruct (wsRef (session w)) as [h|];
      [|by apply oneLive_initWebSocket].
    destruct (readyStateOf h w') as [[]|]; simpl; try done.
    by apply oneLive_initWebSocket.
  - simpl. by apply (oneLive_ext w).
  - unfold bind, read. simpl.
    destruct (loading (session w) || submitDisabled (session w)); [done|].
    unfold sendCommand, bind, read. simpl.
    destruct (_ || _); [by apply (oneLive_ext w)|].
    destruct (negb _); [by apply (oneLive_ext w)|].
    unfold try_catch, bind.
    pose proof (oneLive_wsRef_current_send
                  (send_command_frame (command (session w))) w Hw) as Hsend.
    destruct (wsRef_current_send _ w) as [[[]|e] w']; simpl in *;
      by apply (oneLive_ext w').
  - unfold clickPowerButton, bind, read. simpl.
    destruct (loading (session w) || powerButtonDisabled a (session w));
      [done|].
    unfold handlePowerAction, bind, read. simpl.
    destruct (_ || _); [done|]. unfold try_catch.
    pose proof (oneLive_wsRef_current_send (power_action_frame a)
                  (setPowerLoading true w).2) as Hsend.
    destruct (wsRef_current_send _ _) as [[[]|e] w']; simpl in *;
      [apply Hsend|apply (oneLive_ext w'); [done..|apply Hsend]];
      by apply (oneLive_ext w).
  - unfold cleanup, bind, read. simpl.
    destruct (wsRef (session w)) as [h|]; [|done].
    by apply oneLive_ws_close.
Qed.

Lemma oneLive_run (events : list Event) (tok : JsValue) :
  oneLive (run NumberToString ExnMessage events (initialWorld tok)).
Proof.
  induction events as [|e events IH] using rev_ind; [done|].
  unfold run in *. rewrite foldl_app. simpl. by apply oneLive_step.
Qed.

(** X7: however the page got where it is, [wsRef.current] is the socket
    created last, and every other socket is closing or closed: the page
    never holds two connections that are connecting or open. *)
Theorem one_live_socket (events : list Event) (tok : JsValue) :
  let w := run NumberToString ExnMessage events (initialWorld tok) in
  currentIsLast w
  ∧ forall h ws,
      sockets w !! h = Some ws -> wsRef (session w) ≠ Some h ->
      live ws = false.
Proof.
  intros w. destruct (oneLive_run events tok) as [Hcurrent Hlive].
  fold w in Hcurrent, Hlive.
  split; [done|]. intros h ws Hws Hother.
  destruct (live ws) eqn:Hstate; [|done].
  specialize (Hlive h ws Hws Hstate). unfold currentIsLast in Hcurrent.
  destruct (wsRef (session w)) as [h'|].
  - destruct Hother. f_equal. lia.
  - by rewrite Hcurrent in Hws.
Qed.

(** *** What goes out on the wire *)

(** The frames of every socket of [w] are still there in [w']. *)
Definition sentKept (w w' : World) : Prop :=
  forall h ws,
    sockets w !! h = Some ws ->
    exists ws', sockets w' !! h = Some ws' ∧ sent ws' = sent ws.

Lemma sentKept_same (w w' : World) : sockets w' = sockets w -> sentKept w w'.
Proof. intros Hsockets h ws Hws. rewrite Hsockets. eauto. Qed.

Lemma sentKept_trans (w1 w2 w3 : World) :
  sentKept w1 w2 -> sentKept w2 w3 -> sentKept w1 w3.
Proof.
  intros H12 H23 h ws Hws.
  destruct (H12 h ws Hws) as (ws2 & Hws2 & <-). by apply H23.
Qed.

Lemma sentKept_updateSocket h f (w : World) :
  (forall ws, sent (f ws) = sent ws) -> sentKept w (updateSocket h f w).
Proof.
  intros Hf h' ws Hws. destruct (decide (h' = h)) as [->|Hne].
  - exists (f ws). by rewrite (ConsoleFacts.readyStateOf_updateSocket _ _ _ ws).
  - exists ws. unfold updateSocket. simpl.
    destruct (sockets w !! h); [|done].
    by rewrite list_lookup_insert_ne.
Qed.

Lemma sentKept_ws_close h (w : World) : sentKept w (ws_close h w).2.
Proof.
  unfold ws_close. destruct (readyStateOf h w) as [[]|]; simpl;
    first [by apply sentKept_updateSocket|by apply sentKept_same].
Qed.

Lemma sentKept_initWebSocket data (w : World) :
  sentKept w (initWebSocket data w).2.
Proof.
  unfold initWebSocket, bind, read. simpl.
  destruct (truthy (token w)); simpl; [|by apply sentKept_same].
  assert (exists w', match wsRef (session w) with
                     | Some old => ws_close old
                     | None => ret ()
                     end w = (Normal (), w') ∧ sentKept w w')
    as (w' & -> & Hkept).
  { destruct (wsRef (session w)) as [old|];
      [|exists w; split; [done|by apply sentKept_same]].
    pose proof (sentKept_ws_close old w) as Hclose. unfold ws_close in *.
    destruct (readyStateOf old w) as [[]|];
      (eexists; split; [reflexivity|exact Hclose]). }
  simpl. intros h ws Hws. destruct (Hkept h ws Hws) as (ws' & Hws' & <-).
  exists ws'. split; [|done]. by apply lookup_app_l_Some.
Qed.

(** The frame an event of the user asks to send. *)
Definition userFrame (e : Event) (w : World) : option JsValue :=
  match e with
  | SubmitCommand => Some (send_command_frame (command (session w)))
  | ClickPower a => Some (power_action_frame a)
  | _ => None
  end.

(** What an event did to the frames of socket [h]: nothing, or one frame
    more. *)
Definition sentAfter (e : Event) (w w' : World) (h : nat) (ws : WebSocket)
  : Prop :=
  exists ws',
    sockets w' !! h = Some ws'
    ∧ (sent ws' = sent ws
       ∨ exists frame,
           userFrame e w = Some frame
           ∧ sent ws' = sent ws ++ [frame]
           ∧ wsRef (session w) = Some h
           ∧ readyState ws = OPEN).

Lemma sentAfter_kept e (w w' : World) h ws :
  sentKept w w' -> sockets w !! h = Some ws -> sentAfter e w w' h ws.
Proof.
  intros Hkept Hws. destruct (Hkept h ws Hws) as (ws' & Hws' & Hsent).
  exists ws'. eauto.
Qed.

Lemma sentAfter_ext e (w w' w'' : World) h ws :
  sockets w'' = sockets w' -> sentAfter e w w' h ws -> sentAfter e w w'' h ws.
Proof. unfold sentAfter. by intros ->. Qed.

Lemma sentAfter_send e frame (w w' : World) h ws :
  userFrame e w = Some frame ->
  sockets w' = sockets w ->
  wsRef (session w') = wsRef (session w) ->
  sockets w !! h = Some ws ->
  sentAfter e w (wsRef_current_send frame w').2 h ws.
Proof.
  intros He Hsockets Href Hws.
  assert (sentAfter e w w' h ws) as Hsame
    by (by apply sentAfter_kept; [apply sentKept_same|]).
  unfold wsRef_current_send, bind, read, ws_send, readyStateOf. simpl.
  rewrite Href.
  destruct (wsRef (session w)) as [h0|] eqn:Hh0; simpl; [|done].
  destruct (sockets w' !! h0) as [ws0|] eqn:Hws0; simpl; [|done].
  destruct (readyState ws0) eqn:Hstate; simpl; try done.
  rewrite <- Hsockets in Hws.
  destruct (decide (h = h0)) as [->|Hne].
  - exists (transmit frame ws).
    split; [by apply ConsoleFacts.readyStateOf_updateSocket|].
    right. exists frame. split_and!; try done. congruence.
  - exists ws. split; [|by left]. unfold updateSocket. simpl.
    rewrite Hws0. by rewrite list_lookup_insert_ne.
Qed.

(** X8: the frames a socket has sent are never changed or dropped, and an
    event adds at most one: the frame of the command submitted or of the
    power button clicked, through [wsRef.current] while it is open. No
    other event (an inbound frame, an open, error or close event, a
    timeout, the cleanup) sends anything. *)
Theorem frames_only_on_user_action e (w : World) h ws :
  sockets w !! h = Some ws ->
  sentAfter e w (step NumberToString ExnMessage e w).2 h ws.
Proof.
  intros Hws.
  destruct e as [data|h0|h0 frame|h0|h0|i|text| |a| ]; unfold step.
  - apply sentAfter_kept; [|done]. unfold fetchServer, bind. simpl.
    destruct (negb _ || negb _); simpl; [by apply sentKept_same|].
    pose proof (sentKept_initWebSocket data
                  (setServer (fun _ => Some data) w).2) as Hinit.
    destruct (initWebSocket data _) as [[[]|e] w']; apply Hinit.
  - apply sentAfter_kept; [|done]. unfold bind, read. simpl.
    destruct (readyStateOf h0 w) as [[]|]; simpl;
      try by apply sentKept_same.
    apply (sentKept_trans _ (updateSocket h0 (withReadyState OPEN) w));
      [by apply sentKept_updateSocket|by apply sentKept_same].
  - apply sentAfter_kept; [|done]. unfold bind, read. simpl.
    destruct (readyStateOf h0 w) as [[]|]; simpl;
      try by apply sentKept_same.
    all: apply sentKept_same;
      by destruct (onmessage_sameConnection NumberToString frame w w).
  - apply sentAfter_kept; [|done]. unfold bind, read. simpl.
    destruct (readyStateOf h0 w); by apply sentKept_same.
  - apply sentAfter_kept; [|done]. unfold bind, read. simpl.
    destruct (sockets w !! h0) as [ws0|]; simpl; [|by apply sentKept_same].
    destruct (readyState ws0); simpl; try by apply sentKept_same.
    all: apply (sentKept_trans _ (updateSocket h0 (withReadyState CLOSED) w));
      [by apply sentKept_updateSocket|by apply sentKept_same].
  - apply sentAfter_kept; [|done]. unfold bind, read. simpl.
    destruct (timers w !! i) as [data|]; simpl; [|by apply sentKept_same].
    unfold reconnect, bind, read. simpl.
    set (w' := {| session := session w; sockets := sockets w;
                  timers := delete i (timers w); token := token w;
                  renderError := renderError w |}).
    assert (sentKept w w') as Hw' by (by apply sentKept_same).
    assert (sentKept w (initWebSocket data w').2) as Hinit
      by (eapply sentKept_trans; [done|apply sentKept_initWebSocket]).
    destruct (wsRef (session w)) as [h1|]; [|done].
    by destruct (readyStateOf h1 w') as [[]|].
  - apply sentAfter_kept; [|done]. by apply sentKept_same.
  - unfold bind, read. simpl.
    destruct (loading (session w) || submitDisabled (session w));
      [by apply sentAfter_kept; [apply sentKept_same|]|].
    unfold sendCommand, bind, read. simpl.
    destruct (_ || _); [by apply sentAfter_kept; [apply sentKept_same|]|].
    destruct (negb _); [by apply sentAfter_kept; [apply sentKept_same|]|].
    unfold try_catch, bind.
    pose proof (sentAfter_send SubmitCommand
                  (send_command_frame (command (session w))) w w h ws
                  eq_refl eq_refl eq_refl Hws) as Hsend.
    destruct (wsRef_current_send _ w) as [[[]|e] w']; simpl in *;
      by apply (sentAfter_ext _ _ w').
  - unfold clickPowerButton, bind, read. simpl.
    destruct (loading (session w) || powerButtonDisabled a (session w));
      [by apply sentAfter_kept; [apply sentKept_same|]|].
    unfold handlePowerAction, bind, read. simpl.
    destruct (_ || _); [by apply sentAfter_kept; [apply sentKept_same|]|].
    unfold try_catch.
    pose proof (sentAfter_send (ClickPower a) (power_action_frame a) w
                  (setPowerLoading true w).2 h ws
                  eq_refl eq_refl eq_refl Hws) as Hsend.
    destruct (wsRef_current_send _ _) as [[[]|e] w']; simpl in *;
      by apply (sentAfter_ext _ _ w').
  - apply sentAfter_kept; [|done]. unfold cleanup, bind, read. simpl.
    destruct (wsRef (session w)) as [h1|]; [|by apply sentKept_same].
    apply sentKept_ws_close.
Qed.

(** *** A pending power action *)

Definition inbound (e : Event) : bool :=
  match e with
  | SocketMessage _ _ => true
  | _ => false
  end.

(** What the handlers call apart from the setters. *)
Ltac browser_call :=
  unfold preserves; intros;
  unfold ws_close, ws_send, new_WebSocket, setTimeout, timerFired, modify;
  simpl; repeat case_match; assumption.

Lemma pending_step e :
  inbound e = false ->
  preserves (fun w => powerLoading (session w) = true)
    (step NumberToString ExnMessage e).
Proof.
  intros He.
  destruct e as [data|h|h frame|h|h|i|text| |a| ]; try done; unfold step.
  - unfold fetchServer, initWebSocket. walk browser_call.
  - walk browser_call.
  - walk browser_call.
  - walk browser_call.
  - unfold reconnect, initWebSocket. walk browser_call.
  - browser_call.
  - unfold sendCommand, wsRef_current_send. walk browser_call.
  - intros w Hw. unfold clickPowerButton, bind, read. cbv beta iota.
    assert (powerButtonDisabled a (session w) = true) as ->
      by (destruct a; simpl; by rewrite Hw).
    by rewrite orb_true_r.
  - unfold cleanup. walk browser_call.
Qed.

(** X9: once a power action is pending, nothing but an inbound frame ends
    it. Through any other events (the socket closing, a reconnect, clicks,
    commands, the cleanup) [powerLoading] stays set, the three power
    buttons stay disabled, and a click on any of them does nothing. *)
Theorem pending_power_action_persists (events : list Event) (w : World) :
  powerLoading (session w) = true ->
  Forall (fun e => inbound e = false) events ->
  let later := run NumberToString ExnMessage events w in
  powerLoading (session later) = true
  ∧ forall a,
      powerButtonDisabled a (session later) = true
      ∧ clickPowerButton ExnMessage a later = (Normal (), later).
Proof.
  intros Hpending Hevents later.
  assert (powerLoading (session later) = true) as Hlater.
  { subst later. revert Hevents.
    induction events as [|e events IH] using rev_ind; intros Hevents; [done|].
    apply Forall_app in Hevents as [Hevents [He _]%Forall_cons].
    unfold run in *. rewrite foldl_app. simpl. by apply pending_step, IH. }
  split; [done|]. intros a.
  assert (powerButtonDisabled a (session later) = true) as Hdisabled
    by (destruct a; simpl; by rewrite Hlater).
  split; [done|].
  unfold clickPowerButton, bind, read. cbv beta iota.
  by rewrite Hdisabled, orb_true_r.
Qed.

(** *** [sendCommand] and [handlePowerAction] on a socket that is not open *)

(** X10: [sendCommand] never throws, and whatever the state of the page it
    adds exactly one line to the log. *)
Theorem sendCommand_one_line (w : World) :
  (sendCommand ExnMessage w).1 = Normal ()
  ∧ exists line,
      messages (session (sendCommand ExnMessage w).2)
      = messages (session w) ++ [JStr line].
Proof.
  unfold sendCommand, bind, read. simpl.
  destruct (_ || _); [by eauto|].
  destruct (negb _); [by eauto|].
  unfold try_catch, bind, wsRef_current_send, bind, read, ws_send. simpl.
  destruct (wsRef (session w)) as [h|]; [|by eauto].
  destruct (readyStateOf h w) as [[]|]; by eauto.
Qed.

(** X11: a command that [sendCommand] lets through (a socket in [wsRef],
    the server running, the command not blank) while the socket is not
    open. Connecting: [send] throws, the line of the failure is logged,
    the input keeps the command. Closing or closed: [send] drops the
    frame without a word, so the command is echoed and the input cleared
    as if it had been sent. Nothing is transmitted either way. *)
Theorem sendCommand_socket_not_open (w : World) (h : nat) :
  wsRef (session w) = Some h ->
  trim (command (session w)) ≠ [] ->
  isServerActive (session w) = true ->
  (readyStateOf h w = Some CONNECTING ->
   sendCommand ExnMessage w
   = (Normal (),
      (setMessages
         (fun prev => prev ++ [JStr (failedLine ExnMessage InvalidStateError)])
         w).2))
  ∧ (readyStateOf h w = Some CLOSING ∨ readyStateOf h w = Some CLOSED ->
     sendCommand ExnMessage w
     = (Normal (),
        (setCommand []
           (setMessages
              (fun prev => prev ++ [JStr (echoLine (command (session w)))])
              w).2).2)).
Proof.
  intros Href Hcommand Hactive.
  assert (sendCommand ExnMessage w
          = try_catch
              (wsRef_current_send (send_command_frame (command (session w))) >>
               setMessages
                 (fun prev => prev ++ [JStr (echoLine (command (session w)))]) >>
               setCommand [])
              (fun e =>
                 setMessages (fun prev => prev ++ [JStr (failedLine ExnMessage e)]))
              w) as ->.
  { unfold sendCommand, bind at 1, read. cbv beta iota.
    by rewrite Href, Hactive, !bool_decide_eq_false_2. }
  unfold try_catch, bind, wsRef_current_send, bind, read, ws_send.
  cbv beta iota. rewrite Href.
  split; [intros ->|intros [->| ->]]; reflexivity.
Qed.

(** X12: the same for [handlePowerAction], called with a server loaded,
    no action pending and a socket in [wsRef]. Connecting: [send] throws,
    the error becomes the message of the exception and [powerLoading] is
    taken back. Closing or closed: the frame is dropped without a word and
    [powerLoading] stays set, with nothing on its way to the server. *)
Theorem handlePowerAction_socket_not_open (a : Action) (w : World) (h : nat) :
  server (session w) ≠ None ->
  powerLoading (session w) = false ->
  wsRef (session w) = Some h ->
  (readyStateOf h w = Some CONNECTING ->
   handlePowerAction ExnMessage a w
   = (Normal (),
      (setPowerLoading false
         (setError (JStr (ExnMessage InvalidStateError))
            (setPowerLoading true w).2).2).2))
  ∧ (readyStateOf h w = Some CLOSING ∨ readyStateOf h w = Some CLOSED ->
     handlePowerAction ExnMessage a w
     = (Normal (), (setPowerLoading true w).2)).
Proof.
  intros Hserver Hpending Href.
  assert (handlePowerAction ExnMessage a w
          = try_catch
              (wsRef_current_send (power_action_frame a))
              (fun err =>
                 setError (JStr (ExnMessage err)) >> setPowerLoading false)
              (setPowerLoading true w).2) as ->.
  { unfold handlePowerAction, bind at 1, read. cbv beta iota.
    by rewrite Hpending, Href, !bool_decide_eq_false_2. }
  remember (setPowerLoading true w).2 as pending eqn:Hw.
  assert (wsRef (session pending) = Some h) as Href'
    by (by rewrite Hw).
  assert (readyStateOf h pending = readyStateOf h w) as <-
    by (by rewrite Hw).
  unfold try_catch, wsRef_current_send, bind, read, ws_send.
  cbv beta iota. rewrite Href'. cbv beta iota.
  split; [intros ->|intros [->| ->]]; reflexivity.
Qed.

(** *** A close event of a socket that is no longer the current one *)

(** X13: [ws.onclose] does not look at which socket closed. When a socket
    other than [wsRef.current] closes while the current one is open, the
    page is marked disconnected and a reconnect is scheduled; the timeout
    then finds the current socket open and does nothing, so the page stays
    marked disconnected, with the command form disabled, beside an open
    socket. *)
Theorem superseded_close_disconnects (w : World) (h current : nat)
    (ws : WebSocket) :
  wsRef (session w) = Some current ->
  readyStateOf current w = Some OPEN ->
  h ≠ current ->
  sockets w !! h = Some ws ->
  readyState ws ≠ CLOSED ->
  let closed := (step NumberToString ExnMessage (SocketClose h) w).2 in
  let later :=
    (step NumberToString ExnMessage (TimerFires (length (timers w))) closed).2 in
  timers closed = timers w ++ [serverData ws]
  ∧ later = (setConnected false (updateSocket h (withReadyState CLOSED) w)).2
  ∧ readyStateOf current later = Some OPEN
  ∧ connected (session later) = false
  ∧ step NumberToString ExnMessage SubmitCommand later = (Normal (), later).
Proof.
  intros Href Hopen Hne Hws Hstate closed later.
  set (shut := updateSocket h (withReadyState CLOSED) w).
  assert (closed = (onclose (serverData ws) shut).2) as Hclosed.
  { subst closed shut.
    by apply (ConsoleFacts.close_event_schedules _ _ w h ws). }
  assert (readyStateOf current shut = Some OPEN) as Hopen'.
  { subst shut. unfold readyStateOf, updateSocket in *. simpl.
    rewrite Hws. by rewrite list_lookup_insert_ne. }
  assert (timers closed = timers w ++ [serverData ws]) as Htimers
    by (by rewrite Hclosed).
  assert (later = (setConnected false shut).2) as Hlater.
  { subst later. unfold step, bind, read. cbv beta iota.
    rewrite Htimers, lookup_app_r, Nat.sub_diag by done. simpl.
    unfold reconnect, bind, read. simpl.
    rewrite Hclosed. simpl. rewrite Href.
    change (readyStateOf current _) with (readyStateOf current shut).
    rewrite Hopen'. simpl. unfold timerFired, modify, withSession. simpl.
    by rewrite delete_middle, app_nil_r, Href. }
  split_and!; [done|done|by rewrite Hlater|by rewrite Hlater|].
  rewrite Hlater. unfold step, bind, read. simpl.
  by rewrite orb_true_r.
Qed.

(** *** A page without a token *)

(** Nothing has happened on the connection. *)
Definition idle (w : World) : Prop :=
  sockets w = [] ∧ timers w = [] ∧ wsRef (session w) = None
  ∧ connected (session w) = false ∧ powerLoading (session w) = false
  ∧ messages (session w) = [].

Lemma idle_step e (w : World) :
  truthy (token w) = false ->
  idle w ->
  token (step NumberToString ExnMessage e w).2 = token w
  ∧ idle (step NumberToString ExnMessage e w).2.
Proof.
  intros Htoken (Hsockets & Htimers & Href & Hconnected & Hpending & Hlog).
  assert (forall h, readyStateOf h w = None) as Hnone
    by (intros h; unfold readyStateOf; by rewrite Hsockets).
  destruct e as [data|h|h frame|h|h|i|text| |a| ]; unfold step, idle.
  - unfold fetchServer, initWebSocket, bind, read. simpl.
    destruct (negb _ || negb _); simpl; [done|].
    by rewrite Htoken.
  - unfold bind, read. simpl. by rewrite Hnone.
  - unfold bind, read. simpl. by rewrite Hnone.
  - unfold bind, read. simpl. by rewrite Hnone.
  - unfold bind, read. simpl. by rewrite Hsockets.
  - unfold bind, read. simpl. by rewrite Htimers.
  - done.
  - unfold bind, read, submitDisabled. simpl.
    by rewrite Hconnected, orb_true_r.
  - unfold clickPowerButton, bind, read. simpl.
    destruct (_ || _); [done|].
    unfold handlePowerAction, bind, read. simpl.
    by rewrite Href, !orb_true_r.
  - unfold cleanup, bind, read. simpl. by rewrite Href.
Qed.

(** X14: without a token in [localStorage] ([null], or the empty string)
    the page never opens a socket. Whatever happens, no socket exists, no
    reconnect is pending, the page is not connected, the log is empty and
    no power action is pending. *)
Theorem no_token_no_socket (events : list Event) (tok : JsValue) :
  truthy tok = false ->
  idle (run NumberToString ExnMessage events (initialWorld tok)).
Proof.
  intros Htoken.
  cut (token (run NumberToString ExnMessage events (initialWorld tok)) = tok
       ∧ idle (run NumberToString ExnMessage events (initialWorld tok)));
    [by intros [_ ?]|].
  induction events as [|e events [IHtoken IH]] using rev_ind; [done|].
  unfold run in *. rewrite foldl_app. simpl.
  destruct (idle_step e _ ltac:(by rewrite IHtoken) IH) as [Hsame Hidle].
  split; [congruence|done].
Qed.

(** *** The status line and the colour of the state *)

(** X15: on a page reached from its first render, the status line never
    reads ['Unknown'], and it reads ['Connected'] exactly when a frame
    given to [wsRef.current.send] is transmitted: with any other status
    [send] leaves the page as it is, by throwing or by dropping the
    frame. *)
Theorem status_line_and_send (events : list Event) (tok frame : JsValue) :
  let w := run NumberToString ExnMessage events (initialWorld tok) in
  ConsoleView.checkWebSocketStatus w ≠ js "Unknown"
  ∧ (ConsoleView.checkWebSocketStatus w = js "Connected" ->
     exists h, wsRef (session w) = Some h
               ∧ wsRef_current_send frame w
                 = (Normal (), updateSocket h (transmit frame) w)
               ∧ sockets (updateSocket h (transmit frame) w) ≠ sockets w)
  ∧ (ConsoleView.checkWebSocketStatus w ≠ js "Connected" ->
     (wsRef_current_send frame w).2 = w).
Proof.
  intros w. destruct (oneLive_run events tok) as [Hcurrent _].
  fold w in Hcurrent. unfold currentIsLast in Hcurrent.
  unfold ConsoleView.checkWebSocketStatus, wsRef_current_send, bind, read,
    ws_send, readyStateOf.
  cbv beta iota.
  destruct (wsRef (session w)) as [h|]; [|by split_and!].
  destruct (lookup_lt_is_Some_2 (sockets w) h ltac:(lia)) as [ws Hws].
  rewrite Hws. simpl.
  destruct (readyState ws) eqn:Hstate; split_and!; try done.
  intros _. exists h. split_and!; [done..|].
  intros Hsame.
  change (sockets (updateSocket h (transmit frame) w) = sockets w) in Hsame.
  pose proof (ConsoleFacts.readyStateOf_updateSocket h (transmit frame) w ws
                Hws) as Hlook.
  rewrite Hsame, Hws in Hlook. injection Hlook as Hlook.
  apply (f_equal (fun x => length (sent x))) in Hlook. simpl in Hlook.
  rewrite length_app in Hlook. simpl in Hlook. lia.
Qed.

(** X16: the state in the header is green exactly when the console takes
    the server to be running, that is when the power buttons and the
    command form are set for a running server. *)
Theorem stateColor_green_when_active (s : Session) :
  ConsoleView.stateColor s = Normal (js "text-green-500")
  <-> isServerActive s = true.
Proof.
  unfold ConsoleView.stateColor, ConsoleView.getStateColor, isServerActive,
    or_else.
  destruct (server s) as [data|]; [|by simpl].
  destruct (state data) as [| |b|n|st|items|fields]; simpl; try done.
  - by destruct b.
  - destruct n as [|negative|q]; simpl; [|by split|destruct (negb _)];
      repeat case_decide; by split.
  - rewrite bool_decide_eq_true.
    destruct (decide (st = [])) as [->|Hst].
    + rewrite bool_decide_eq_true_2 by done. simpl.
      repeat case_decide; by split.
    + rewrite bool_decide_eq_false_2 by done. simpl.
      repeat case_decide; by split.
Qed.

(** *** What the frames of the server do *)

(** [network.rx_bytes] and [network.tx_bytes], or zero without a
    [network]. *)
Definition bytesOf (network : JsValue) (k : string) : JsValue :=
  if truthy network then
    match getProperty network (js k) with
    | Normal v => v
    | Throw _ => JUndefined
    end
  else JNum (num 0).

Lemma bytesOf_get (network : JsValue) (k : string) :
  (if truthy network then get network k else ret (JNum (num 0)))
  = ret (bytesOf network k).
Proof.
  unfold bytesOf, get, lift, ret.
  destruct network as [| |b|n|s|items|fields]; simpl; try done;
    by repeat case_match.
Qed.

Definition zeroMemory : JsValue :=
  JObj [ (js "used", JNum (num 0)); (js "limit", JNum (num 0));
         (js "percent", JNum (num 0)) ].

(** [message.data.k], [undefined] when there is no such property. *)
Definition valueOf (payload : list (jsstring * JsValue)) (k : string)
  : JsValue :=
  default JUndefined (field payload (js k)).

Lemma bind_ret {A B} (a : A) (k : A -> M B) : bind (ret a) k = k a.
Proof. reflexivity. Qed.

Lemma data_of_frame event (payload : list (jsstring * JsValue)) k :
  data_of (JObj [ (js "event", JStr (js event)); (js "data", JObj payload) ]) k
  = ret (valueOf payload k).
Proof. reflexivity. Qed.

(** The page after a [stats] frame. *)
Lemma stats_frame_effect (payload : list (jsstring * JsValue)) (w : World) :
  let shown :=
    match valueOf payload "cpu_percent" with
    | JUndefined => w
    | cpu =>
        (setLiveStats
           {| cpuPercent := or_else cpu (JNum (num 0));
              memory := or_else (valueOf payload "memory") zeroMemory;
              network_rxBytes := bytesOf (valueOf payload "network") "rx_bytes";
              network_txBytes := bytesOf (valueOf payload "network") "tx_bytes" |} w).2
    end in
  (onmessage NumberToString (ConsoleFacts.frame_of "stats" payload) w).2
  = if truthy (valueOf payload "state")
    then (setServer
            (fun prev =>
               match prev with
               | Some data =>
                   Some {| state := or_else (valueOf payload "state") (state data);
                           internalId := internalId data;
                           node_fqdn := node_fqdn data;
                           node_port := node_port data |}
               | None => None
               end) shown).2
    else shown.
Proof.
  intros shown. subst shown.
  unfold ConsoleFacts.frame_of, onmessage, JSON_parse.
  unfold bind at 1 2, ret at 1, get at 1, lift at 1. simpl.
  rewrite data_of_frame, bind_ret.
  destruct (valueOf payload "cpu_percent") eqn:Hcpu;
    repeat first [rewrite data_of_frame | rewrite bind_ret
                 | rewrite bytesOf_get | rewrite Hcpu ];
    unfold when; by destruct (truthy (valueOf payload "state")).
Qed.

(** X17: a [stats] frame. Without [cpu_percent] the statistics shown stay
    as they are; with it they are replaced, a missing [memory] by zeros
    and a missing or [null] [network] by zero bytes both ways. The frame
    never touches the log, the error or a pending power action, and it
    cannot give a state to a page without a server. *)
Theorem stats_frame (payload : list (jsstring * JsValue)) (w : World) :
  let after :=
    (onmessage NumberToString (ConsoleFacts.frame_of "stats" payload) w).2 in
  (field payload (js "cpu_percent") = None ->
   liveStats (session after) = liveStats (session w))
  ∧ (forall cpu,
       field payload (js "cpu_percent") = Some cpu -> cpu ≠ JUndefined ->
       cpuPercent (liveStats (session after)) = or_else cpu (JNum (num 0))
       ∧ (field payload (js "memory") = None ->
          memory (liveStats (session after)) = zeroMemory)
       ∧ (field payload (js "network") = None
          ∨ field payload (js "network") = Some JNull ->
          network_rxBytes (liveStats (session after)) = JNum (num 0)
          ∧ network_txBytes (liveStats (session after)) = JNum (num 0)))
  ∧ messages (session after) = messages (session w)
  ∧ error (session after) = error (session w)
  ∧ powerLoading (session after) = powerLoading (session w)
  ∧ (server (session w) = None -> server (session after) = None).
Proof.
  intros after. subst after. rewrite stats_frame_effect.
  unfold valueOf.
  split_and!.
  - intros ->. simpl. by destruct (truthy _).
  - intros cpu -> Hcpu. simpl.
    destruct cpu; try done.
    all: split_and!;
      [by destruct (truthy _)
      |intros ->; by destruct (truthy _)
      |intros [-> | ->]; by destruct (truthy _)].
  - by destruct (default JUndefined (field payload (js "cpu_percent"))),
         (truthy (default JUndefined (field payload (js "state")))).
  - by destruct (default JUndefined (field payload (js "cpu_percent"))),
         (truthy (default JUndefined (field payload (js "state")))).
  - by destruct (default JUndefined (field payload (js "cpu_percent"))),
         (truthy (default JUndefined (field payload (js "state")))).
  - intros Hserver.
    destruct (default JUndefined (field payload (js "cpu_percent"))),
      (truthy (default JUndefined (field payload (js "state"))));
      simpl; by rewrite ?Hserver.
Qed.

Lemma setMessages_line_session (line : Completion JsValue) (w : World) :
  (setMessages_line line w).1 = Normal ()
  ∧ server (session (setMessages_line line w).2) = server (session w)
  ∧ error (session (setMessages_line line w).2) = error (session w)
  ∧ powerLoading (session (setMessages_line line w).2)
    = powerLoading (session w)
  ∧ messages (session (setMessages_line line w).2)
    = match line with
      | Normal l => messages (session w) ++ [l]
      | Throw _ => messages (session w)
      end.
Proof. by destruct line. Qed.

Lemma bind_setMessages_line {B} line (k : unit -> M B) (w : World) :
  bind (setMessages_line line) k w = k () (setMessages_line line w).2.
Proof. by destruct line. Qed.

(** X18: the two frames that end a power action. A [power_status] or
    [error] frame with an object as its [data] always takes
    [powerLoading] back. The [error] frame sets the error to its
    [message], or to ['An unknown error occurred'] when that is missing or
    empty, and logs it after ['Error: ']; the [power_status] frame logs
    its [status], if it has one, and leaves the error alone. *)
Theorem frames_that_end_a_power_action
    (payload : list (jsstring * JsValue)) (w : World) :
  let status :=
    (onmessage NumberToString
       (ConsoleFacts.frame_of "power_status" payload) w).2 in
  let failed :=
    (onmessage NumberToString (ConsoleFacts.frame_of "error" payload) w).2 in
  let unknown := js "An unknown error occurred" in
  powerLoading (session status) = false
  ∧ powerLoading (session failed) = false
  ∧ error (session failed) = or_else (valueOf payload "message") (JStr unknown)
  ∧ (truthy (valueOf payload "message") = false ->
     messages (session failed)
     = messages (session w) ++ [JStr (js "Error: " ++ unknown)])
  ∧ (forall text,
       field payload (js "message") = Some (JStr text) -> text ≠ [] ->
       messages (session failed)
       = messages (session w) ++ [JStr (js "Error: " ++ text)])
  ∧ error (session status) = error (session w)
  ∧ (forall text,
       field payload (js "status") = Some (JStr text) ->
       messages (session status) = messages (session w) ++ [JStr text])
  ∧ (field payload (js "status") = None ->
     messages (session status) = messages (session w)).
Proof.
  intros status failed unknown.
  assert (status
          = (setPowerLoading false
               match valueOf payload "status" with
               | JUndefined => w
               | st =>
                   (setMessages_line
                      (map_completion JStr (toString_method NumberToString st))
                      w).2
               end).2) as Hstatus.
  { subst status. unfold ConsoleFacts.frame_of, onmessage, JSON_parse.
    unfold bind at 1 2, ret at 1, get at 1, lift at 1. simpl.
    rewrite data_of_frame, bind_ret.
    destruct (valueOf payload "status"); try done;
      by rewrite bind_setMessages_line. }
  assert (let shown := or_else (valueOf payload "message") (JStr unknown) in
          failed
          = (setPowerLoading false
               (setMessages_line
                  (map_completion (fun text => JStr (js "Error: " ++ text))
                     (ToString NumberToString shown))
                  (setError shown w).2).2).2) as Hfailed.
  { subst failed. unfold ConsoleFacts.frame_of, onmessage, JSON_parse.
    unfold bind at 1 2, ret at 1, get at 1, lift at 1. simpl.
    rewrite data_of_frame, bind_ret. unfold bind at 1. simpl.
    by rewrite bind_setMessages_line. }
  cbv zeta in Hfailed. rewrite Hstatus, Hfailed. clear Hstatus Hfailed.
  set (shown := or_else (valueOf payload "message") (JStr unknown)).
  destruct (setMessages_line_session
              (map_completion (fun text => JStr (js "Error: " ++ text))
                 (ToString NumberToString shown))
              (setError shown w).2) as (_ & _ & Herror & _ & Hlog).
  split_and!.
  - reflexivity.
  - reflexivity.
  - exact Herror.
  - intros Hmessage. etrans; [exact Hlog|].
    subst shown. unfold or_else. by rewrite Hmessage.
  - intros text Hmessage Htext. etrans; [exact Hlog|].
    subst shown. unfold valueOf, or_else. rewrite Hmessage. simpl.
    by rewrite bool_decide_eq_false_2.
  - destruct (valueOf payload "status") as [| |b|n|s|items|fields];
      [reflexivity|..].
    all: match goal with
         | |- context [setMessages_line ?line ?w0] =>
             by destruct (setMessages_line_session line w0)
               as (_ & _ & He & _)
         end.
  - intros text Hstatus. unfold valueOf. by rewrite Hstatus.
  - intros Hstatus. unfold valueOf. by rewrite Hstatus.
Qed.

End Session.

Lemma frames_only_on_user_action_witness :
  let w := openPage "running" in
  exists ws,
    sockets w !! 0 = Some ws
    ∧ sentAfter (ClickPower stop) w
        (step sampleNumberToString sampleExnMessage (ClickPower stop) w).2
        0 ws.
Proof.
  intros w. eexists. split; [reflexivity|].
  apply (frames_only_on_user_action sampleNumberToString sampleExnMessage
           (ClickPower stop) w 0).
  reflexivity.
Defined.

Lemma pending_power_action_persists_witness :
  let w := sampleRun [ClickPower stop] (openPage "running") in
  let events :=
    [SocketClose 0; TimerFires 0; ClickPower start; SubmitCommand; Unmount] in
  powerLoading (session w) = true
  ∧ Forall (fun e => inbound e = false) events
  ∧ powerLoading (session (sampleRun events w)) = true.
Proof.
  intros w events.
  assert (Forall (fun e => inbound e = false) events) as Hevents
    by (repeat constructor).
  split_and!; [reflexivity|exact Hevents|].
  exact (proj1 (pending_power_action_persists sampleNumberToString
                  sampleExnMessage events w eq_refl Hevents)).
Defined.

Lemma sendCommand_socket_not_open_witness :
  let w := sampleRun [TypeCommand (js "say hi"); Unmount] (openPage "running") in
  (wsRef (session w) = Some 0 ∧ trim (command (session w)) ≠ []
   ∧ isServerActive (session w) = true ∧ readyStateOf 0 w = Some CLOSING)
  ∧ sendCommand sampleExnMessage w
    = (Normal (),
       (setCommand []
          (setMessages (fun prev => prev ++ [JStr (echoLine (js "say hi"))])
             w).2).2).
Proof.
  intros w.
  assert (trim (command (session w)) ≠ []) as Hcommand by done.
  split; [by split_and!|].
  exact (proj2 (sendCommand_socket_not_open sampleExnMessage w 0
                  eq_refl Hcommand eq_refl) (or_introl eq_refl)).
Defined.

Lemma handlePowerAction_socket_not_open_witness :
  let w := sampleRun [Unmount] (openPage "running") in
  (server (session w) ≠ None ∧ powerLoading (session w) = false
   ∧ wsRef (session w) = Some 0 ∧ readyStateOf 0 w = Some CLOSING)
  ∧ handlePowerAction sampleExnMessage stop w
    = (Normal (), (setPowerLoading true w).2).
Proof.
  intros w.
  assert (server (session w) ≠ None) as Hserver by done.
  split; [by split_and!|].
  exact (proj2 (handlePowerAction_socket_not_open sampleExnMessage stop w 0
                  Hserver eq_refl eq_refl) (or_introl eq_refl)).
Defined.

Lemma superseded_close_disconnects_witness :
  let w := sampleRun [Unmount; FetchServer (serverIn "running"); SocketOpen 1]
             (openPage "running") in
  let later := sampleRun [SocketClose 0; TimerFires 0] w in
  (wsRef (session w) = Some 1 ∧ readyStateOf 1 w = Some OPEN
   ∧ readyStateOf 0 w = Some CLOSING)
  ∧ readyStateOf 1 later = Some OPEN
  ∧ connected (session later) = false.
Proof.
  intros w later.
  assert (0 ≠ 1) as Hne by done.
  assert (readyState
            {| readyState := CLOSING; sent := [];
               serverData := serverIn "running";
               socketToken := JStr (js "secret") |} ≠ CLOSED) as Hstate
    by done.
  destruct (superseded_close_disconnects sampleNumberToString
              sampleExnMessage w 0 1 _ eq_refl eq_refl Hne eq_refl Hstate)
    as (_ & _ & Hopen & Hconnected & _).
  split; [by split_and!|]. split; [exact Hopen|exact Hconnected].
Defined.

Lemma no_token_no_socket_witness :
  truthy JNull = false
  ∧ idle (sampleRun [FetchServer (serverIn "running"); SocketOpen 0;
                     TypeCommand (js "say hi"); SubmitCommand;
                     ClickPower start]
            (initialWorld JNull)).
Proof.
  split; [reflexivity|].
  exact (no_token_no_socket sampleNumberToString sampleExnMessage _ JNull
           eq_refl).
Defined.

End ConsoleProperties.

(** ** Properties of the file manager *)
Module FileManagerProperties.

Import FileManager.

(** *** The context menu *)

(** The keys of [fileTypes] whose files can be edited. *)
Definition editablePrefixes : list jsstring :=
  [ js "text/"; js "application/json"; js "application/javascript";
    js "application/x-yaml" ].

Definition editable (mime : jsstring) : bool :=
  existsb (startsWith mime) editablePrefixes.

Lemma canEdit_editable mime : canEdit (getFileTypeInfo mime) = editable mime.
Proof.
  unfold getFileTypeInfo, editable, fileTypes, editablePrefixes. simpl.
  repeat (destruct (startsWith mime _); [reflexivity|]). reflexivity.
Qed.

Lemma extract_not_editable mime :
  canExtractFile mime = true -> editable mime = false.
Proof.
  unfold canExtractFile. intros Hmime%bool_decide_eq_true.
  repeat (apply elem_of_cons in Hmime as [->|Hmime]; [by vm_compute|]).
  by apply elem_of_nil in Hmime.
Qed.

(** X19: the context menu of a file is download, copy, delete, preceded
    by edit when the MIME type starts with one of the four editable keys,
    or by extract when it is one of the four archive types, never by both;
    and a click on the row opens the editor exactly for the files, not
    folders, whose menu has edit. *)
Theorem actions_of_file (file : FileEntry) :
  actions file
  = (if editable (mime file) then [MenuEdit]
     else if canExtractFile (mime file) then [MenuExtract]
     else [])
    ++ [MenuDownload; MenuCopy; MenuDelete]
  ∧ forall currentPath,
      rowClick currentPath file = OpenEditor
      <-> isFile file = true ∧ MenuEdit ∈ actions file.
Proof.
  assert (actions file
          = (if editable (mime file) then [MenuEdit]
             else if canExtractFile (mime file) then [MenuExtract]
             else [])
            ++ [MenuDownload; MenuCopy; MenuDelete]) as Hactions.
  { unfold actions. rewrite canEdit_editable.
    destruct (canExtractFile (mime file)) eqn:Hextract.
    - by rewrite (extract_not_editable _ Hextract).
    - by destruct (editable (mime file)). }
  split; [done|]. intros currentPath.
  rewrite Hactions. unfold rowClick. rewrite canEdit_editable.
  destruct (editable (mime file)), (isFile file),
    (canExtractFile (mime file)); simpl;
    rewrite ?elem_of_cons, ?elem_of_nil; intuition (auto; discriminate).
Qed.

(** *** The drop zone *)

Lemma onDragEvent_active zone e :
  dropZoneActive zone = bool_decide (1 <= dragCounter zone)%Z ->
  dropZoneActive (onDragEvent zone e)
  = bool_decide (1 <= dragCounter (onDragEvent zone e))%Z.
Proof.
  intros Hzone. destruct e; simpl; rewrite ?Hzone.
  - destruct (Z.eqb_spec (dragCounter zone + 1) 1) as [Hone|Hone].
    + by rewrite bool_decide_eq_true_2 by lia.
    + apply bool_decide_ext. lia.
  - destruct (Z.eqb_spec (dragCounter zone - 1) 0) as [Hzero|Hzero].
    + by rewrite bool_decide_eq_false_2 by lia.
    + apply bool_decide_ext. lia.
  - done.
  - done.
Qed.

(** X20: whatever drag events arrive, in whatever order, the drop zone is
    shown exactly while the drag counter is at least one; a leave without
    its enter cannot leave the overlay behind. *)
Theorem dropZone_shown_while_counter_positive (events : list DragEvent) :
  let zone := foldl onDragEvent initialDropZone events in
  dropZoneActive zone = true <-> (1 <= dragCounter zone)%Z.
Proof.
  intros zone.
  cut (dropZoneActive zone = bool_decide (1 <= dragCounter zone)%Z);
    [intros ->; apply bool_decide_eq_true|].
  subst zone. induction events as [|e events IH] using rev_ind; [done|].
  rewrite foldl_app. simpl. by apply onDragEvent_active.
Qed.

(** *** The path *)

Lemma join_snoc sep parts part :
  parts ≠ [] -> join sep (parts ++ [part]) = join sep parts ++ sep ++ part.
Proof.
  induction parts as [|first [|second rest] IH]; intros Hparts; [done|done|].
  change (join sep ((first :: second :: rest) ++ [part]))
    with (first ++ sep ++ join sep ((second :: rest) ++ [part])).
  rewrite IH by done. simpl. by rewrite <- !app_assoc.
Qed.

(** X21: going into a folder and back gives the path there was; the
    button of a segment gives the path up to and with that segment, the
    last one the path itself; the arrow at the root stays at the root; and
    going into a folder adds its name to the path sent to the server,
    after a slash unless the path was the root. *)
Theorem path_navigation (currentPath : list jsstring) :
  (forall file, goBack (enterFolder currentPath file) = currentPath)
  ∧ (forall index segment,
       currentPath !! index = Some segment ->
       goToSegment index currentPath
       = take index currentPath ++ [segment])
  ∧ goToSegment (length currentPath - 1) currentPath = currentPath
  ∧ goBack goHome = goHome
  ∧ (forall file,
       currentFullPath (enterFolder currentPath file)
       = if decide (currentPath = []) then name file
         else currentFullPath currentPath ++ js "/" ++ name file).
Proof.
  split_and!.
  - intros file. unfold goBack, enterFolder.
    rewrite length_app. simpl.
    replace (length currentPath + 1 - 1) with (length currentPath) by lia.
    by rewrite take_app_length.
  - intros index segment Hsegment. unfold goToSegment.
    rewrite Nat.add_1_r. by apply take_S_r.
  - unfold goToSegment. apply take_ge. lia.
  - done.
  - intros file. unfold currentFullPath, enterFolder.
    destruct (decide (currentPath = [])) as [->|Hpath]; [done|].
    by apply join_snoc.
Qed.

(** *** The selection *)

Lemma Set_add_new (s : NameSet) x : x ∉ s -> Set_add s x = s ++ [x].
Proof. intros Hx. unfold Set_add, Set_has. by rewrite bool_decide_eq_false_2. Qed.

Lemma newSet_distinct (names acc : list jsstring) :
  NoDup (acc ++ names) -> foldl Set_add acc names = acc ++ names.
Proof.
  revert acc. induction names as [|x names IH]; intros acc Hdistinct.
  - by rewrite app_nil_r.
  - simpl. rewrite Set_add_new.
    + rewrite IH; rewrite <- app_assoc; done.
    + apply NoDup_app in Hdistinct as (_ & Hacc & _).
      intros Hx. apply (Hacc x Hx). by left.
Qed.

Lemma Set_delete_cons (s : NameSet) x y :
  Set_delete (y :: s) x
  = if decide (y ≠ x) then y :: Set_delete s x else Set_delete s x.
Proof. reflexivity. Qed.

Lemma Set_delete_absent (s : NameSet) x : x ∉ s -> Set_delete s x = s.
Proof.
  induction s as [|y s IH]; intros Hx; [done|].
  apply not_elem_of_cons in Hx as [Hne Hx].
  rewrite Set_delete_cons, decide_True by done. f_equal. by apply IH.
Qed.

Lemma length_Set_delete (s : NameSet) x :
  NoDup s -> x ∈ s -> S (length (Set_delete s x)) = length s.
Proof.
  induction 1 as [|y s Hy Hs IH]; intros Hx.
  - by apply elem_of_nil in Hx.
  - rewrite Set_delete_cons. destruct (decide (y ≠ x)) as [Hne|Heq].
    + cbn [length]. f_equal. apply IH.
      by apply elem_of_cons in Hx as [->|Hx].
    + apply dec_stable in Heq as ->. by rewrite Set_delete_absent.
Qed.

(** X22: with the names of the listing distinct, as the names of a
    directory are, ticking the header selects every file of the listing,
    in its order; the header is then shown ticked unless the listing is
    empty, and unticking any row unticks it. *)
Theorem checkAll_selects_the_listing (sortedFiles : list FileEntry) :
  NoDup (name <$> sortedFiles) ->
  let selected := checkAll true sortedFiles in
  selected = name <$> sortedFiles
  ∧ (forall file, file ∈ sortedFiles -> Set_has selected (name file) = true)
  ∧ allChecked selected sortedFiles = bool_decide (sortedFiles ≠ [])
  ∧ (forall file,
       file ∈ sortedFiles ->
       Set_has (toggle selected file) (name file) = false
       ∧ allChecked (toggle selected file) sortedFiles = false).
Proof.
  intros Hdistinct selected.
  assert (selected = name <$> sortedFiles) as Hselected
    by (by apply (newSet_distinct _ [])).
  clearbody selected. subst selected.
  assert (forall file, file ∈ sortedFiles ->
                       Set_has (name <$> sortedFiles) (name file) = true)
    as Hhas.
  { intros file Hfile. apply bool_decide_eq_true.
    by apply list_elem_of_fmap_2. }
  split_and!; [done|done|..].
  - unfold allChecked. rewrite length_fmap.
    rewrite bool_decide_eq_true_2 by done. simpl.
    apply bool_decide_ext. destruct sortedFiles; simpl; [|split; [done|lia]].
    split; [lia|done].
  - intros file Hfile. unfold toggle. rewrite (Hhas file Hfile).
    split.
    + apply bool_decide_eq_false. unfold Set_delete.
      rewrite list_elem_of_filter. by intros [? _].
    + unfold allChecked. rewrite bool_decide_eq_false_2; [done|].
      pose proof (length_Set_delete (name <$> sortedFiles) (name file)
                    Hdistinct (list_elem_of_fmap_2 _ _ _ Hfile)) as Hlength.
      rewrite length_fmap in Hlength. lia.
Qed.

(** *** The listing *)

Lemma includes_empty (s : jsstring) : includes s [] = true.
Proof.
  unfold includes. by simpl.
Qed.

Lemma insertSorted_perm cmp x l : insertSorted cmp x l ≡ₚ x :: l.
Proof.
  induction l as [|y l IH]; simpl; [done|].
  destruct (cmp x y <=? 0)%Z; [done|]. rewrite IH. apply perm_swap.
Qed.

Lemma sort_perm cmp l : sort cmp l ≡ₚ l.
Proof.
  induction l as [|x l IH]; simpl; [done|].
  by rewrite insertSorted_perm, IH.
Qed.

Section Listing.

Variable toLowerCase : jsstring -> jsstring.
Variable localeCompare : jsstring -> jsstring -> Z.

(** [localeCompare] orders the names: two names compare one way or the
    other, and the comparisons chain. *)
Hypothesis localeCompare_total :
  forall a b, (localeCompare a b <= 0)%Z ∨ (localeCompare b a <= 0)%Z.
Hypothesis localeCompare_trans :
  forall a b c,
    (localeCompare a b <= 0)%Z -> (localeCompare b c <= 0)%Z ->
    (localeCompare a c <= 0)%Z.

(** [a] may come before [b] in the listing. *)
Definition before (a b : FileEntry) : Prop :=
  (compareFiles localeCompare a b <= 0)%Z.

Lemma before_total a b : before a b ∨ before b a.
Proof.
  unfold before, compareFiles.
  destruct (isFile a), (isFile b); simpl;
    first [apply localeCompare_total | left; lia | right; lia].
Qed.

Lemma before_trans a b c : before a b -> before b c -> before a c.
Proof.
  unfold before, compareFiles.
  destruct (isFile a), (isFile b), (isFile c); simpl;
    first [apply localeCompare_trans | lia].
Qed.

Lemma before_folder a b : before a b -> isFile b = false -> isFile a = false.
Proof.
  unfold before, compareFiles. intros Hab Hb. rewrite Hb in Hab.
  destruct (isFile a); simpl in *; [lia|done].
Qed.

Lemma insertSorted_sorted x l :
  StronglySorted before l ->
  StronglySorted before (insertSorted (compareFiles localeCompare) x l).
Proof.
  induction 1 as [|y l Hl IH Hy]; simpl; [by repeat constructor|].
  destruct (Z.leb_spec (compareFiles localeCompare x y) 0) as [Hxy|Hxy].
  - constructor; [by constructor|]. constructor; [done|].
    eapply Forall_impl; [exact Hy|]. intros z Hyz. by eapply before_trans.
  - constructor; [done|]. rewrite insertSorted_perm. constructor; [|done].
    destruct (before_total x y) as [Hbefore|Hbefore]; [|done].
    unfold before in Hbefore. lia.
Qed.

Lemma sort_sorted l :
  StronglySorted before (sort (compareFiles localeCompare) l).
Proof.
  induction l as [|x l IH]; simpl; [constructor|].
  by apply insertSorted_sorted.
Qed.

Lemma sorted_lookup (l : list FileEntry) i j a b :
  StronglySorted before l ->
  l !! i = Some a -> l !! j = Some b -> i < j -> before a b.
Proof.
  intros Hl. revert i j. induction Hl as [|x l Hl IH Hx]; intros i j Ha Hb Hij.
  - done.
  - destruct j as [|j]; [lia|]. simpl in Hb. destruct i as [|i].
    + simpl in Ha. injection Ha as ->.
      rewrite Forall_forall in Hx. apply Hx. by eapply list_elem_of_lookup_2.
    + simpl in Ha. apply (IH i j); [done..|lia].
Qed.

(** X23: the listing holds the files whose name, in lower case, includes
    the search in lower case, each once; it is in the order of the
    comparator, so that no folder comes after a file and folders, like
    files, are in the order of [localeCompare]; and with an empty search
    every file is listed. *)
Theorem sortedFiles_listing (files : list FileEntry) (search : jsstring) :
  let listing := sortedFiles toLowerCase localeCompare files search in
  listing
    ≡ₚ List.filter
         (fun file => includes (toLowerCase (name file)) (toLowerCase search))
         files
  ∧ StronglySorted before listing
  ∧ (forall i j a b,
       listing !! i = Some a -> listing !! j = Some b -> i < j ->
       (isFile b = false -> isFile a = false)
       ∧ (isFile a = isFile b ->
          (localeCompare (name a) (name b) <= 0)%Z))
  ∧ (toLowerCase search = [] -> listing ≡ₚ files).
Proof.
  intros listing.
  assert (StronglySorted before listing) as Hsorted by apply sort_sorted.
  split_and!; [apply sort_perm|done|..].
  - intros i j a b Ha Hb Hij.
    pose proof (sorted_lookup listing i j a b Hsorted Ha Hb Hij) as Hbefore.
    split; [by apply before_folder|].
    intros Hsame. unfold before, compareFiles in Hbefore.
    by rewrite Hsame, eqb_reflx in Hbefore.
  - intros Hsearch. subst listing. unfold sortedFiles.
    rewrite sort_perm, Hsearch.
    rewrite forallb_filter_id; [done|].
    apply forallb_forall. intros file _. apply includes_empty.
Qed.

End Listing.

(** The order of the code units, for an example of [localeCompare]. *)
Fixpoint codeUnitCompare (a b : jsstring) : Z :=
  match a, b with
  | [], [] => 0
  | [], _ :: _ => -1
  | _ :: _, [] => 1
  | x :: a', y :: b' =>
      match (x ?= y)%N with
      | Lt => -1
      | Gt => 1
      | Eq => codeUnitCompare a' b'
      end
  end.

Lemma codeUnitCompare_total a b :
  (codeUnitCompare a b <= 0)%Z ∨ (codeUnitCompare b a <= 0)%Z.
Proof.
  revert b. induction a as [|x a IH]; intros [|y b]; simpl;
    try (left; lia); try (right; lia).
  rewrite (N.compare_antisym x y).
  destruct (x ?= y)%N; simpl; [apply IH|left; lia|right; lia].
Defined.

Lemma codeUnitCompare_trans a b c :
  (codeUnitCompare a b <= 0)%Z -> (codeUnitCompare b c <= 0)%Z ->
  (codeUnitCompare a c <= 0)%Z.
Proof.
  revert b c. induction a as [|x a IH]; intros [|y b] [|z c]; simpl;
    try lia.
  destruct (N.compare_spec x y) as [->|Hxy|Hxy]; [|intros _|lia].
  - destruct (z ?= y)%N eqn:Hzy; rewrite (N.compare_antisym z y), Hzy; simpl;
      [apply IH|lia|lia].
  - destruct (N.compare_spec y z) as [->|Hyz|Hyz]; [| |lia]; intros _.
    + by rewrite (proj2 (N.compare_lt_iff x z)).
    + rewrite (proj2 (N.compare_lt_iff x z)); [lia|]. by etrans.
Defined.

Definition entry (isFile : bool) (name : string) : FileEntry :=
  {| name := js name; mode := js "-rw-r--r--"; size := num 0;
     isFile := isFile; isSymlink := false; modifiedAt := num 0;
     createdAt := num 0; mime := js "text/plain" |}.

Lemma distinct_names (names : list jsstring) :
  bool_decide (NoDup names) = true -> NoDup names.
Proof. apply bool_decide_eq_true_1. Defined.

Lemma checkAll_selects_the_listing_witness :
  let listing := [entry false "cache"; entry false "logs";
                  entry true "a.txt"] in
  NoDup (name <$> listing)
  ∧ checkAll true listing = [js "cache"; js "logs"; js "a.txt"]
  ∧ allChecked (checkAll true listing) listing = true.
Proof.
  intros listing.
  assert (NoDup (name <$> listing)) as Hdistinct
    by (by apply distinct_names).
  destruct (checkAll_selects_the_listing listing Hdistinct)
    as (Hselected & _ & Hchecked & _).
  split_and!; [exact Hdistinct|exact Hselected|exact Hchecked].
Defined.

Lemma sortedFiles_listing_witness :
  let files := [entry true "b.txt"; entry false "logs"; entry true "a.txt";
                entry false "cache"] in
  (forall a b, (codeUnitCompare a b <= 0)%Z ∨ (codeUnitCompare b a <= 0)%Z)
  ∧ sortedFiles Console.toLowerCase codeUnitCompare files (js "")
    = [entry false "cache"; entry false "logs"; entry true "a.txt";
       entry true "b.txt"]
  ∧ StronglySorted (before codeUnitCompare)
      (sortedFiles Console.toLowerCase codeUnitCompare files (js "")).
Proof.
  intros files.
  split_and!; [exact codeUnitCompare_total|reflexivity|].
  exact (proj1 (proj2 (sortedFiles_listing Console.toLowerCase
                         codeUnitCompare codeUnitCompare_total
                         codeUnitCompare_trans files (js "")))).
Defined.

End FileManagerProperties.
